(** * WhoWasWhen: the query pipeline of [ruler-query.go]

    A shallow embedding of the query interpretation, retrieval predicates,
    merge/count and formatting code of [src/pkg/ruler-query.go], and the
    properties of it that the specification states.

    Conventions.
    - A Go [string] is a Rocq [string] (a sequence of bytes).
    - A Go [int] is a [Z] in the 64-bit two's-complement range; the only
      arithmetic that can leave the range ([-year] in [formatYear]) has its
      wrap-around written out with [int_wrap].
    - A Go [map] is a [gmap]; where the code ranges over a map, the iteration
      order is an explicit argument, constrained to be a permutation of the
      map's entries (Go leaves the order unspecified).
    - The SQLite store is an external collaborator: the predicates the code
      sends to it ([LIKE], [BETWEEN], [CAST(.. AS TEXT)]) are modelled by
      their SQLite semantics on an INTEGER year column. *)

From Stdlib Require Import ZArith Ascii String List Bool Lia.
From Stdlib Require Import Decimal DecimalString DecimalZ DecimalPos.
From Stdlib Require Import Sorting.Sorted Sorting.Permutation.
From stdpp Require Import base option list gmap strings.

Local Open Scope string_scope.
Local Open Scope Z_scope.

(* ===================================================================== *)
(** * Go runtime: strings, integers, [strconv], [strings] *)
(* ===================================================================== *)

Module Go.

(** 64-bit [int]. *)
Definition min_int : Z := - 2 ^ 63.
Definition max_int : Z := 2 ^ 63 - 1.
Definition int_wrap (z : Z) : Z := (z + 2 ^ 63) mod 2 ^ 64 - 2 ^ 63.

(** [strconv.Itoa] and the ["%d"] verb: the decimal rendering of an
    integer, with a leading minus sign for negative values. *)
Definition Itoa (z : Z) : string := NilZero.string_of_int (Z.to_int z).

(** The decimal reading of [-?digits]; [None] for any other text. *)
Definition parse_decimal (s : string) : option Z :=
  option_map Z.of_int (NilZero.int_of_string s).

(** [strconv.Atoi] with the error dropped ([n, _ := strconv.Atoi(s)]):
    an optional sign and decimal digits; 0 on a syntax error and the
    nearest bound on a range error. *)
Definition Atoi (s : string) : Z :=
  let body := match s with
              | String "+"%char s' =>
                  match s' with
                  | String "-"%char _ => None
                  | _ => parse_decimal s'
                  end
              | _ => parse_decimal s
              end in
  match body with
  | None => 0
  | Some z => if z <? min_int then min_int
              else if max_int <? z then max_int else z
  end.

(** [len(s)]. *)
Definition len (s : string) : nat := String.length s.

(** [strings.HasPrefix]. *)
Fixpoint HasPrefix (s p : string) {struct p} : bool :=
  match p with
  | EmptyString => true
  | String c p' =>
      match s with
      | EmptyString => false
      | String d s' => Ascii.eqb c d && HasPrefix s' p'
      end
  end.

(** [strings.Contains]. *)
Fixpoint Contains (s sub : string) : bool :=
  HasPrefix s sub ||
  match s with
  | EmptyString => false
  | String _ s' => Contains s' sub
  end.

(** One byte of [strings.ToLower]: the ASCII letters [A]..[Z] move to
    [a]..[z]; every other byte is kept. *)
Definition lower_byte (c : ascii) : ascii :=
  let n := nat_of_ascii c in
  if ((65 <=? n) && (n <=? 90))%nat then ascii_of_nat (n + 32) else c.

(** [strings.ToLower] (on ASCII text). *)
Fixpoint ToLower (s : string) : string :=
  match s with
  | EmptyString => EmptyString
  | String c s' => String (lower_byte c) (ToLower s')
  end.

(** [strings.Count(s, "-")] for a one-byte separator. *)
Fixpoint CountByte (s : string) (c : ascii) : nat :=
  match s with
  | EmptyString => 0%nat
  | String d s' => ((if Ascii.eqb d c then 1 else 0) + CountByte s' c)%nat
  end.

(** [strings.Split(s, sep)] for a one-byte separator: the pieces between
    the separators, always at least one piece. *)
Fixpoint SplitByte (s : string) (c : ascii) : list string :=
  match s with
  | EmptyString => [EmptyString]
  | String d s' =>
      if Ascii.eqb d c then EmptyString :: SplitByte s' c
      else match SplitByte s' c with
           | [] => [String d EmptyString]
           | p :: ps => String d p :: ps
           end
  end.

(** [strings.TrimRight(s, string(c))]: the text without its trailing run
    of the byte [c]. *)
Fixpoint TrimRight (s : string) (c : ascii) : string :=
  match s with
  | EmptyString => EmptyString
  | String d s' =>
      match TrimRight s' c with
      | EmptyString => if Ascii.eqb d c then EmptyString else String d EmptyString
      | t => String d t
      end
  end.

(** [strings.Repeat(string(c), n)]. *)
Fixpoint RepeatByte (c : ascii) (n : nat) : string :=
  match n with
  | O => EmptyString
  | S n' => String c (RepeatByte c n')
  end.

(** [strings.Join(parts, sep)]. *)
Fixpoint Join (parts : list string) (sep : string) : string :=
  match parts with
  | [] => EmptyString
  | [p] => p
  | p :: ps => p ++ sep ++ Join ps sep
  end.

(** [s[:n]]. *)
Fixpoint slice_to (s : string) (n : nat) : string :=
  match n, s with
  | S n', String c s' => String c (slice_to s' n')
  | _, _ => EmptyString
  end.

(** ASCII white space, as [strings.Fields] sees it. *)
Definition is_space (c : ascii) : bool :=
  let n := nat_of_ascii c in
  ((n =? 32) || ((9 <=? n) && (n <=? 13)))%nat.

(** [strings.Fields]: the maximal runs of non-space bytes, in order.
    [cur] is the field being read, reversed. *)
Fixpoint fields_go (s : string) (cur : string) : list string :=
  match s with
  | EmptyString =>
      match cur with EmptyString => [] | _ => [String.rev cur] end
  | String c s' =>
      if is_space c then
        match cur with
        | EmptyString => fields_go s' EmptyString
        | _ => String.rev cur :: fields_go s' EmptyString
        end
      else fields_go s' (String c cur)
  end.

Definition Fields (s : string) : list string := fields_go s EmptyString.

End Go.

Import Go.

(* ===================================================================== *)
(** * Regular expressions ([regexp.MatchString] on anchored patterns) *)
(* ===================================================================== *)

Module Regexp.

(** The fragment of RE2 syntax the program's patterns use. *)
Inductive regex : Type :=
| Void                          (* matches nothing *)
| Eps                           (* the empty text *)
| Chr (c : ascii)               (* a literal byte *)
| Digit                         (* \d *)
| Alt (r1 r2 : regex)           (* r1|r2 *)
| Seq (r1 r2 : regex)           (* r1r2 *)
| Star (r : regex).             (* r* *)

Definition Opt (r : regex) : regex := Alt r Eps.      (* r? *)
Definition Plus (r : regex) : regex := Seq r (Star r). (* r+ *)

Definition is_digit (c : ascii) : bool :=
  let n := nat_of_ascii c in ((48 <=? n) && (n <=? 57))%nat.

Fixpoint nullable (r : regex) : bool :=
  match r with
  | Void | Chr _ | Digit => false
  | Eps | Star _ => true
  | Alt r1 r2 => nullable r1 || nullable r2
  | Seq r1 r2 => nullable r1 && nullable r2
  end.

(** Brzozowski derivative: what is left to match after reading [c]. *)
Fixpoint deriv (c : ascii) (r : regex) : regex :=
  match r with
  | Void | Eps => Void
  | Chr d => if Ascii.eqb c d then Eps else Void
  | Digit => if is_digit c then Eps else Void
  | Alt r1 r2 => Alt (deriv c r1) (deriv c r2)
  | Seq r1 r2 =>
      if nullable r1 then Alt (Seq (deriv c r1) r2) (deriv c r2)
      else Seq (deriv c r1) r2
  | Star r1 => Seq (deriv c r1) (Star r1)
  end.

(** [^r$] against the whole text. *)
Fixpoint full_match (r : regex) (s : string) : bool :=
  match s with
  | EmptyString => nullable r
  | String c s' => full_match (deriv c r) s'
  end.

(** The language of a pattern, as a relation. *)
Inductive lang : regex -> string -> Prop :=
| L_Eps : lang Eps ""
| L_Chr c : lang (Chr c) (String c "")
| L_Digit c : is_digit c = true -> lang Digit (String c "")
| L_AltL r1 r2 s : lang r1 s -> lang (Alt r1 r2) s
| L_AltR r1 r2 s : lang r2 s -> lang (Alt r1 r2) s
| L_Seq r1 r2 s1 s2 : lang r1 s1 -> lang r2 s2 -> lang (Seq r1 r2) (s1 ++ s2)
| L_Star0 r : lang (Star r) ""
| L_StarS r s1 s2 : lang r s1 -> lang (Star r) s2 -> lang (Star r) (s1 ++ s2).

End Regexp.

Import Regexp.

(* ===================================================================== *)
(** * The term classifier and the range grammar *)
(* ===================================================================== *)

(** [-?\d*\**] *)
Definition year_run : regex :=
  Seq (Opt (Chr "-")) (Seq (Star Digit) (Star (Chr "*"))).

(** The pattern of [isNumberLike]:
    [^-?\d*\**$|^-?\d*\**--?\d*\**$] *)
Definition number_like_pattern : regex :=
  Alt year_run
      (Seq year_run (Seq (Chr "-") (Seq (Opt (Chr "-"))
                                       (Seq (Star Digit) (Star (Chr "*")))))).

(** [isNumberLike]: is the term a number, a BC year or a range? *)
Definition isNumberLike (term : string) : bool :=
  full_match number_like_pattern term.

(** The pattern of [extractRange], [^(-?\d+)-(-?\d+)$|^-?(\d+)$], one
    alternative at a time. *)
Definition signed_pattern : regex := Seq (Opt (Chr "-")) (Plus Digit).
Definition two_group_pattern : regex :=
  Seq signed_pattern (Seq (Chr "-") signed_pattern).
Definition single_pattern : regex := Seq (Opt (Chr "-")) (Plus Digit).

(** The submatches of the pattern are read by a scanner; that it finds the
    groups of the pattern, and the only ones, is proved below
    ([two_group_iff], [single_group_iff]). *)

(** The longest run of decimal digits at the front of a text, and the rest. *)
Fixpoint span_digits (s : string) : string * string :=
  match s with
  | EmptyString => (EmptyString, EmptyString)
  | String c s' =>
      if is_digit c then
        let '(ds, rest) := span_digits s' in (String c ds, rest)
      else (EmptyString, s)
  end.

(** The text after a leading minus sign, if there is one. *)
Definition strip_minus (s : string) : option string :=
  match s with
  | String c s' => if Ascii.eqb c "-" then Some s' else None
  | EmptyString => None
  end.

(** One group [(-?\d+)] read at the front of a text: the text of the group
    and what follows it.  The sign and the digits are taken greedily; no
    shorter choice can be followed by the separator or the end of the text,
    so this is the only way the group can take part in a match. *)
Definition signed_group (s : string) : option (string * string) :=
  match strip_minus s with
  | Some s' =>
      match span_digits s' with
      | (EmptyString, _) => None
      | (ds, rest) => Some (String "-" ds, rest)
      end
  | None =>
      match span_digits s with
      | (EmptyString, _) => None
      | (ds, rest) => Some (ds, rest)
      end
  end.

(** First alternative of the pattern of [extractRange],
    [^(-?\d+)-(-?\d+)$]: submatches 1 and 2. *)
Definition two_group (term : string) : option (string * string) :=
  match signed_group term with
  | Some (g1, after) =>
      match strip_minus after with
      | Some rest =>
          match signed_group rest with
          | Some (g2, EmptyString) => Some (g1, g2)
          | _ => None
          end
      | None => None
      end
  | None => None
  end.

(** Second alternative, [^-?(\d+)$]: submatch 3 (the digits, unsigned). *)
Definition single_group (term : string) : option string :=
  let body := match strip_minus term with
              | Some s' => s'
              | None => term
              end in
  match span_digits body with
  | (EmptyString, _) => None
  | (ds, EmptyString) => Some ds
  | _ => None
  end.

(** [extractRange]: start and end years of a range term.  The submatches
    of the alternative that did not take part are empty. *)
Definition extractRange (term : string) : string * string :=
  match two_group term with
  | Some (g1, g2) =>
      if negb (String.eqb g1 "") && negb (String.eqb g2 "") then (g1, g2)
      else ("", "")
  | None =>
      match single_group term with
      | Some g3 => if negb (String.eqb g3 "") then (g3, "") else ("", "")
      | None => ("", "")
      end
  end.

(* ===================================================================== *)
(** * The store's predicates (SQLite) *)
(* ===================================================================== *)

Module Sqlite.

(** [text LIKE pattern] with [PRAGMA case_sensitive_like=OFF]: [_] stands
    for any one character, [%] for any run of characters, and any other
    byte for itself, ASCII letters compared without case. *)
Fixpoint like (pat : string) : string -> bool :=
  match pat with
  | EmptyString => fun text => match text with EmptyString => true | _ => false end
  | String p pat' =>
      if Ascii.eqb p "%" then
        fix skip (text : string) : bool :=
          like pat' text ||
          match text with
          | EmptyString => false
          | String _ text' => skip text'
          end
      else if Ascii.eqb p "_" then
        fun text => match text with
                    | EmptyString => false
                    | String _ text' => like pat' text'
                    end
      else
        fun text => match text with
                    | EmptyString => false
                    | String c text' =>
                        Ascii.eqb (lower_byte p) (lower_byte c) && like pat' text'
                    end
  end.

(** Modelled from the spec: the type of the [year] column.  The schema of
    the year index is created by the database generator, which is not
    among the sources; the data model of the specification makes every
    year a signed integer, so the column is taken to hold INTEGER values
    (the program scans it into [sql.NullInt64]).  [cast_text] is
    [CAST(year AS TEXT)] of such a value. *)
Definition cast_text (y : Z) : string := Itoa y.

(** A quoted literal compared with an INTEGER column takes the column's
    affinity when it is a well-formed number; otherwise it stays TEXT, and
    every INTEGER sorts before every TEXT. *)
Definition int_ge_literal (y : Z) (lit : string) : bool :=
  match parse_decimal lit with
  | Some n => n <=? y
  | None => false
  end.

Definition int_le_literal (y : Z) (lit : string) : bool :=
  match parse_decimal lit with
  | Some n => y <=? n
  | None => true
  end.

(** [year BETWEEN 'lo' AND 'hi'], that is [year >= 'lo' AND year <= 'hi']. *)
Definition between (y : Z) (lo hi : string) : bool :=
  int_ge_literal y lo && int_le_literal y hi.

End Sqlite.

(* ===================================================================== *)
(** * Data model *)
(* ===================================================================== *)

(** [sql.NullString] and [sql.NullInt64]. *)
Record NullString : Type := mkNullString { ns_String : string; ns_Valid : bool }.
Record NullInt64 : Type := mkNullInt64 { ni_Int64 : Z; ni_Valid : bool }.

Definition null_string : NullString := mkNullString "" false.
Definition some_string (s : string) : NullString := mkNullString s true.

(** [Config]: settings read from the environment. *)
Module Config.
Record t : Type := mk {
  MySource : string;
  MyRulerID : string;
  MyTitle : string;
  MyTitleProg : string;
  DBPath : string;
  ShowEvents : bool
}.
End Config.

(** [AlfredMod]: a modifier (secondary action) of a result item. *)
Module AlfredMod.
Record t : Type := mk {
  Valid : bool;
  Arg : string;
  Subtitle : string;
  Variables : gmap string string
}.
End AlfredMod.

(** [AlfredItem]: one result item.  The [Variables] field of the source is
    never assigned and is left out. *)
Module AlfredItem.
Record t : Type := mk {
  Title : string;
  Subtitle : string;
  Valid : bool;
  Arg : string;
  Mods : gmap string AlfredMod.t;
  Icon : gmap string string
}.
Definition set_Subtitle (sub : string) (it : t) : t :=
  mk (Title it) sub (Valid it) (Arg it) (Mods it) (Icon it).
End AlfredItem.

(** [AlfredResult]: the batch printed for Alfred. *)
Module AlfredResult.
Record t : Type := mk { Items : list AlfredItem.t }.
End AlfredResult.

(** [RulerRow]: a period joined to its ruler and title. *)
Module RulerRow.
Record t : Type := mk {
  RulerID : Z;
  Name : string;
  PersonalName : NullString;
  Epithet : NullString;
  Wikipedia : NullString;
  Notes : NullString;
  Biography : NullString;
  PeriodID : Z;
  TitleID : Z;
  Title : string;
  TitlePlural : NullString;
  TitleCount : Z;
  Period : string;
  ProgrTitle : Z;
  StartYear : Z;
  EndYear : Z;
  Year : NullInt64;
  ConcatenatedTitles : NullString;
  ConcatenatedNotes : NullString
}.
End RulerRow.

(** [EventRow]. *)
Module EventRow.
Record t : Type := mk {
  EventID : Z;
  EventName : string;
  StartYear : Z;
  EndYear : Z;
  Notes : NullString;
  Wikipedia : NullString;
  Year : NullInt64
}.
End EventRow.

(** [PeriodInfo]: one period of a ruler, as the by-name search keeps it. *)
Module PeriodInfo.
Record t : Type := mk {
  Period : string;
  Notes : string;
  Title : string;
  StartYear : Z;
  EndYear : Z;
  ProgrTitle : Z
}.
End PeriodInfo.

(** [TitleGroup]: a title with its periods and ranking. *)
Module TitleGroup.
Record t : Type := mk {
  Title : string;
  Periods : list PeriodInfo.t;
  Rank : Z
}.
End TitleGroup.

(* ===================================================================== *)
(** * Formatting helpers *)
(* ===================================================================== *)

(** The loop of [formatNumber]: a comma before every byte whose distance
    to the end is a multiple of three, except the first. *)
Fixpoint formatNumber_loop (total i : nat) (str : string) : string :=
  match str with
  | EmptyString => EmptyString
  | String c rest =>
      let tail := String c (formatNumber_loop total (S i) rest) in
      if ((0 <? i) && ((total - i) mod 3 =? 0))%nat then String "," tail
      else tail
  end.

(** [formatNumber] adds thousand separators to numbers. *)
Definition formatNumber (n : Z) : string :=
  let str := Itoa n in
  if (len str <=? 3)%nat then str
  else formatNumber_loop (len str) 0 str.

(** [getTitlePlural]: the plural title, with a fallback. *)
Definition getTitlePlural (titlePlural : NullString) (title : string) : string :=
  if ns_Valid titlePlural && negb (String.eqb (ns_String titlePlural) "")
  then ns_String titlePlural
  else title ++ "s".

(** [formatYear]: a year with BC for the negative ones. *)
Definition formatYear (year : Z) : string :=
  if year <? 0 then Itoa (int_wrap (- year)) ++ " BC"
  else Itoa year.

(** [getTitleRank]: the ranking of a title (lower number = higher
    priority). *)
Definition getTitleRank (title : string) : Z :=
  let titleLower := ToLower title in
  if Contains titleLower "roman emperor" then 1
  else if Contains titleLower "byzantine emperor" then 2
  else if Contains titleLower "holy roman emperor" then 3
  else if Contains titleLower "king" || Contains titleLower "queen" then 10
  else if Contains titleLower "emperor" then 15
  else if Contains titleLower "tsar" || Contains titleLower "czar" then 20
  else if Contains titleLower "president" then 30
  else if Contains titleLower "prime minister" || Contains titleLower "premier" then 35
  else if Contains titleLower "chancellor" then 40
  else if Contains titleLower "duke" || Contains titleLower "duchess" then 50
  else if Contains titleLower "pope" then 55
  else if Contains titleLower "patriarch" then 60
  else if Contains titleLower "consul" then 100
  else if Contains titleLower "tribune" then 110
  else if Contains titleLower "dictator" then 120
  else 1000.

(** ** [formatSubtitle] *)

(** Grouping the periods by title:
    [titleGroups[period.Title] = append(titleGroups[period.Title], period)]. *)
Definition groupByTitle (periods : list PeriodInfo.t)
  : gmap string (list PeriodInfo.t) :=
  foldl (fun m period =>
           <[PeriodInfo.Title period :=
               (default [] (m !! PeriodInfo.Title period) ++ [period])%list]> m)
        (∅ : gmap string (list PeriodInfo.t)) periods.

(** The body of [for title, titlePeriods := range titleGroups], applied to
    the entries in the order the iteration visits them. *)
Definition makeTitleGroups (iter : list (string * list PeriodInfo.t))
  : list TitleGroup.t :=
  map (fun '(title, titlePeriods) =>
         TitleGroup.mk title titlePeriods (getTitleRank title)) iter.

(** One step of the inner sorting loop: exchange the entries at [i] and [j]
    when the one at [i] has the greater rank. *)
Definition exchange (i j : nat) (a : list TitleGroup.t) : list TitleGroup.t :=
  match a !! i, a !! j with
  | Some x, Some y =>
      if TitleGroup.Rank y <? TitleGroup.Rank x
      then <[j := x]> (<[i := y]> a)
      else a
  | _, _ => a
  end.

(** [for j := ..; j < len(a); j++], with [n] iterations left. *)
Fixpoint sort_inner (i j n : nat) (a : list TitleGroup.t) : list TitleGroup.t :=
  match n with
  | O => a
  | S n' => sort_inner i (S j) n' (exchange i j a)
  end.

(** [for i := ..; i < len(a); i++], with [n] iterations left. *)
Fixpoint sort_outer (i n : nat) (a : list TitleGroup.t) : list TitleGroup.t :=
  match n with
  | O => a
  | S n' => sort_outer (S i) n' (sort_inner i (S i) (length a - S i) a)
  end.

(** The sort by rank of [formatSubtitle]. *)
Definition sortByRank (a : list TitleGroup.t) : list TitleGroup.t :=
  sort_outer 0 (length a) a.

(** The text of one period inside its title group. *)
Definition formatPeriod (period : PeriodInfo.t) : string :=
  let periodStr :=
    if PeriodInfo.StartYear period =? PeriodInfo.EndYear period
    then formatYear (PeriodInfo.StartYear period)
    else formatYear (PeriodInfo.StartYear period) ++ "-" ++
         formatYear (PeriodInfo.EndYear period) in
  if negb (String.eqb (PeriodInfo.Notes period) "") &&
     negb (String.eqb (PeriodInfo.Notes period) ",")
  then periodStr ++ ", " ++ PeriodInfo.Notes period
  else periodStr.

(** The text of one title group: ["Title (p1; p2; ...)"]. *)
Definition formatTitleGroup (titleGroup : TitleGroup.t) : string :=
  TitleGroup.Title titleGroup ++ " (" ++
  Join (map formatPeriod (TitleGroup.Periods titleGroup)) "; " ++ ")".

(** The title parts of the subtitle, in display order. *)
Definition titleParts (iter : list (string * list PeriodInfo.t)) : list string :=
  map formatTitleGroup (sortByRank (makeTitleGroups iter)).

(** [formatSubtitle], given the order in which the map of title groups is
    visited. *)
Definition formatSubtitleIter (iter : list (string * list PeriodInfo.t))
    (personalName : NullString) : string :=
  let titlesString := Join (titleParts iter) "; " in
  if ns_Valid personalName && negb (String.eqb (ns_String personalName) "")
  then ns_String personalName ++ ", " ++ titlesString
  else titlesString.

(** [formatSubtitle periods personalName out]: [out] is a subtitle the
    function can return, for some iteration order of the map. *)
Definition formatSubtitle (periods : list PeriodInfo.t)
    (personalName : NullString) (out : string) : Prop :=
  exists iter, iter ≡ₚ map_to_list (groupByTitle periods) /\
               out = formatSubtitleIter iter personalName.

(** [getHighestRankedTitle]: the title with the lowest rank number. *)
Definition getHighestRankedTitle (periods : list PeriodInfo.t) : string :=
  match periods with
  | [] => ""
  | first :: _ =>
      fst (fold_left
             (fun '(highestTitle, highestRank) period =>
                let rank := getTitleRank (PeriodInfo.Title period) in
                if rank <? highestRank then (PeriodInfo.Title period, rank)
                else (highestTitle, highestRank))
             periods
             (PeriodInfo.Title first, getTitleRank (PeriodInfo.Title first)))
  end.

(* ===================================================================== *)
(** * The year pattern resolver (head of [byYear]) *)
(* ===================================================================== *)

(** The year condition [byYear] puts in the WHERE clause:
    [(y.year BETWEEN 'lo' AND 'hi')] or
    [(CAST(y.year as TEXT) LIKE 'pattern')]. *)
Inductive YearCond : Type :=
| YearBetween (lo hi : string)
| YearLike (pattern : string).

Definition asteriskCount (yearTerm : string) : nat :=
  (len yearTerm - len (TrimRight yearTerm "*"))%nat.

Definition yearPrefix (yearTerm : string) : string :=
  slice_to yearTerm (len yearTerm - asteriskCount yearTerm).

(** [yearSQLString] of [byYear], without the junction. *)
Definition yearCond (yearTerm : string) : YearCond :=
  let prefix := yearPrefix yearTerm in
  let wildcards := RepeatByte "_" (asteriskCount yearTerm) in
  if (CountByte yearTerm "-" =? 1)%nat && negb (HasPrefix yearTerm "-") then
    (* a year range *)
    let parts := SplitByte yearTerm "-" in
    YearBetween (nth 0 parts "") (nth 1 parts "")
  else if (1 <? CountByte yearTerm "-")%nat then
    (* a year range including a negative *)
    let '(start, end_) := extractRange yearTerm in
    YearBetween start end_
  else
    YearLike (prefix ++ wildcards).

(** What the store answers for a year of the index. *)
Definition evalYearCond (c : YearCond) (year : Z) : bool :=
  match c with
  | YearBetween lo hi => Sqlite.between year lo hi
  | YearLike pattern => Sqlite.like pattern (Sqlite.cast_text year)
  end.

(** The year predicate of the by-year retrieval. *)
Definition yearSelected (yearTerm : string) (year : Z) : bool :=
  evalYearCond (yearCond yearTerm) year.

(* ===================================================================== *)
(** * Result items *)
(* ===================================================================== *)

Definition vars (l : list (string * string)) : gmap string string :=
  list_to_map l.

Definition mods (l : list (string * AlfredMod.t)) : gmap string AlfredMod.t :=
  list_to_map l.

Definition icon (path : string) : gmap string string := {[ "path" := path ]}.

(** The modifier "travel to a year" ([cmd], [ctrl]). *)
Definition travelMod (sourceKey year : string) : AlfredMod.t :=
  AlfredMod.mk true year ("travel to " ++ year) (vars [(sourceKey, "")]).

(** The modifier "show all holders of the title" ([alt]). *)
Definition lineageMod (plural : string) (rulerID progr : Z)
    (title originalQuery : string) : AlfredMod.t :=
  AlfredMod.mk true plural ("Show all " ++ plural)
    (vars [("mySource", "ruler");
           ("myRulerID", Itoa rulerID);
           ("mytitleProg", Itoa progr);
           ("myTitle", title);
           ("originalQuery", originalQuery)]).

(** The modifier "go back to main search" ([cmd+alt]). *)
Definition goBackMod (originalQuery : string) : AlfredMod.t :=
  AlfredMod.mk true originalQuery "Go back to main search"
    (vars [("mySource", "");
           ("myRulerID", "");
           ("mytitleProg", "");
           ("myTitle", "");
           ("restoredQuery", originalQuery)]).

(** The modifier "copy full info" ([shift]). *)
Definition copyMod (title subtitle : string) : AlfredMod.t :=
  AlfredMod.mk true (title ++ ": " ++ subtitle) "Copy full info to clipboard" ∅.

Definition wikilinkOf (wikipedia : NullString) (name : string) : string :=
  if ns_Valid wikipedia && negb (String.eqb (ns_String wikipedia) "")
  then ns_String wikipedia
  else "https://en.wikipedia.org/wiki/" ++ name.

(** The placeholder of a search without results. *)
Definition noResultsItem (originalQuery : string) : AlfredItem.t :=
  AlfredItem.mk
    "No results here 🫤"
    "Try a different query"
    false
    ""
    (mods [("cmd+alt", goBackMod originalQuery)])
    (icon "icons/hopeless.png").

(** The pass that adds unified counters to all items (rulers + events). *)
Definition addUnifiedCounters (items : list AlfredItem.t) : list AlfredItem.t :=
  let totalCount := Z.of_nat (length items) in
  imap (fun i item =>
          let counter := formatNumber (Z.of_nat i + 1) ++ "/" ++
                         formatNumber totalCount in
          if negb (String.eqb (AlfredItem.Subtitle item) "")
          then AlfredItem.set_Subtitle
                 (counter ++ " " ++ AlfredItem.Subtitle item) item
          else AlfredItem.set_Subtitle counter item)
       items.

Section Items.

(** [os.Stat(iconPath)] succeeds. *)
Variable iconExists : string -> bool.

Definition iconPathOf (title : string) : string :=
  let iconPath := "icons/" ++ title ++ ".png" in
  if iconExists iconPath then iconPath else "icons/crown.png".

(** The item of one row of the lineage view ([byRuler], "listLineage"). *)
Definition lineageItem (myRulerID : Z) (origQuery : string) (r : RulerRow.t)
  : AlfredItem.t :=
  let rulerStar := if RulerRow.RulerID r =? myRulerID then "🌟" else "" in
  let myTitle := RulerRow.Name r ++ " (" ++ RulerRow.Period r ++ ") " ++ rulerStar in
  let counterPrefix := formatNumber (RulerRow.ProgrTitle r) ++ "/" ++
                       formatNumber (RulerRow.TitleCount r) in
  let subtitleString :=
    if ns_Valid (RulerRow.Biography r) &&
       negb (String.eqb (ns_String (RulerRow.Biography r)) "")
    then counterPrefix ++ " " ++ ns_String (RulerRow.Biography r)
    else
      let notesPart :=
        if ns_Valid (RulerRow.Notes r) &&
           negb (String.eqb (ns_String (RulerRow.Notes r)) "") &&
           negb (String.eqb (ns_String (RulerRow.Notes r)) ",")
        then ns_String (RulerRow.Notes r) else "" in
      if ns_Valid (RulerRow.PersonalName r) &&
         negb (String.eqb (ns_String (RulerRow.PersonalName r)) "")
      then counterPrefix ++ " " ++ ns_String (RulerRow.PersonalName r) ++ ", " ++
           RulerRow.Title r ++ " " ++ notesPart
      else counterPrefix ++ " " ++ RulerRow.Title r ++ " " ++ notesPart in
  let endYear := Itoa (RulerRow.EndYear r) in
  let startYear := Itoa (RulerRow.StartYear r) in
  let plural := getTitlePlural (RulerRow.TitlePlural r) (RulerRow.Title r) in
  AlfredItem.mk myTitle subtitleString true
    (wikilinkOf (RulerRow.Wikipedia r) (RulerRow.Name r))
    (mods [("cmd", travelMod "mySource" endYear);
           ("ctrl", travelMod "mySource" startYear);
           ("alt", lineageMod plural (RulerRow.RulerID r) (RulerRow.ProgrTitle r)
                     (RulerRow.Title r) origQuery);
           ("cmd+alt", goBackMod origQuery);
           ("shift", copyMod myTitle subtitleString)])
    (icon (iconPathOf (RulerRow.Title r))).

(** The headline year of a by-year item. *)
Definition yearStringOf (yearTerm : string) (year : NullInt64) : string :=
  let isRange := Contains yearTerm "-" in
  if (0 <? asteriskCount yearTerm)%nat || isRange then yearTerm
  else formatYear (ni_Int64 year).

(** The item of one ruler row of [byYear], before the counters. *)
Definition yearRulerItem (config : Config.t) (yearTerm originalQuery : string)
    (r : RulerRow.t) : AlfredItem.t :=
  let yearString := yearStringOf yearTerm (RulerRow.Year r) in
  let epithetString :=
    if ns_Valid (RulerRow.Epithet r) &&
       negb (String.eqb (ns_String (RulerRow.Epithet r)) "")
    then " (" ++ ns_String (RulerRow.Epithet r) ++ ")" else "" in
  let myTitle := yearString ++ ": " ++ RulerRow.Name r ++ epithetString ++
                 " (" ++ RulerRow.Period r ++ ")" in
  let position := " (" ++ formatNumber (RulerRow.ProgrTitle r) ++ "/" ++
                  formatNumber (RulerRow.TitleCount r) ++ ") " ++
                  ns_String (RulerRow.Notes r) in
  let subtitleString :=
    if ns_Valid (RulerRow.PersonalName r) &&
       negb (String.eqb (ns_String (RulerRow.PersonalName r)) "")
    then ns_String (RulerRow.PersonalName r) ++ ", " ++ RulerRow.Title r ++ position
    else RulerRow.Title r ++ position in
  let endYear := Itoa (RulerRow.EndYear r) in
  let startYear := Itoa (RulerRow.StartYear r) in
  let plural := getTitlePlural (RulerRow.TitlePlural r) (RulerRow.Title r) in
  AlfredItem.mk myTitle subtitleString true
    (wikilinkOf (RulerRow.Wikipedia r) (RulerRow.Name r))
    (mods [("cmd", travelMod (Config.MySource config) endYear);
           ("ctrl", travelMod (Config.MySource config) startYear);
           ("alt", lineageMod plural (RulerRow.RulerID r) (RulerRow.ProgrTitle r)
                     (RulerRow.Title r) originalQuery);
           ("cmd+alt", goBackMod originalQuery);
           ("shift", copyMod myTitle subtitleString)])
    (icon (iconPathOf (RulerRow.Title r))).

(** What the two event formatters share. *)
Definition eventItemWith (myTitle originalQuery : string) (e : EventRow.t)
  : AlfredItem.t :=
  let subtitleString :=
    if ns_Valid (EventRow.Notes e) &&
       negb (String.eqb (ns_String (EventRow.Notes e)) "")
    then ns_String (EventRow.Notes e) else "" in
  let endYear := Itoa (EventRow.EndYear e) in
  let startYear := Itoa (EventRow.StartYear e) in
  AlfredItem.mk myTitle subtitleString true
    (wikilinkOf (EventRow.Wikipedia e) (EventRow.EventName e))
    (mods [("cmd", travelMod "mySource" endYear);
           ("ctrl", travelMod "mySource" startYear);
           ("cmd+alt", goBackMod originalQuery);
           ("shift", copyMod myTitle subtitleString)])
    (icon "icons/event.png").

(** The item of one event row of [byEventWithoutCounters]. *)
Definition eventItem (originalQuery : string) (e : EventRow.t) : AlfredItem.t :=
  let yearString :=
    if EventRow.StartYear e =? EventRow.EndYear e
    then formatYear (EventRow.StartYear e)
    else formatYear (EventRow.StartYear e) ++ "-" ++ formatYear (EventRow.EndYear e) in
  eventItemWith (yearString ++ ": " ++ EventRow.EventName e) originalQuery e.

(** The item of one event row of [getEventsByYearWithoutCounters]. *)
Definition yearEventItem (yearTerm originalQuery : string) (e : EventRow.t)
  : AlfredItem.t :=
  let yearString := yearStringOf yearTerm (EventRow.Year e) in
  let rangeStr :=
    if negb (EventRow.StartYear e =? EventRow.EndYear e)
    then " (" ++ formatYear (EventRow.StartYear e) ++ "-" ++
         formatYear (EventRow.EndYear e) ++ ")"
    else "" in
  eventItemWith (yearString ++ ": " ++ EventRow.EventName e ++ rangeStr)
                originalQuery e.

End Items.

(* ===================================================================== *)
(** * The store *)
(* ===================================================================== *)

(** What the program reads from its surroundings during one invocation:
    the table of periods joined to rulers and titles (the lineage queries
    are evaluated on it below), the rows the store answers to the by-year
    and by-name queries, the items [getRulerResultsWithoutCounters] builds
    from the by-name ruler query, and the icon files present. *)
Module Store.
Record t : Type := mk {
  periodTable : list RulerRow.t;
  rulersByYear : YearCond -> list string -> list RulerRow.t;
  eventsByYear : YearCond -> list string -> list EventRow.t;
  rulerItemsByName : list string -> string -> list AlfredItem.t;
  eventsByName : list string -> list EventRow.t;
  iconExists : string -> bool
}.
End Store.

(** [ORDER BY per.progrTitle ASC]: rows in ascending position order, rows
    with the same position in table order. *)
Fixpoint insertByProg (r : RulerRow.t) (rows : list RulerRow.t) : list RulerRow.t :=
  match rows with
  | [] => [r]
  | x :: rest =>
      if RulerRow.ProgrTitle r <=? RulerRow.ProgrTitle x then r :: x :: rest
      else x :: insertByProg r rest
  end.

Definition orderByProg (rows : list RulerRow.t) : list RulerRow.t :=
  foldr insertByProg [] rows.

(** The second query of the lineage view: all periods of the title,
    [WHERE t.title = '<MyTitle>' ORDER BY per.progrTitle ASC]. *)
Definition lineageQuery (table : list RulerRow.t) (title : string)
  : list RulerRow.t :=
  orderByProg (filter (fun r => RulerRow.Title r = title) table).

(** The first query of the lineage view: the lowest position of the ruler
    under the title, [... ORDER BY per.progrTitle ASC LIMIT 1]; no row is
    an error of [QueryRow(..).Scan]. *)
Definition progQuery (table : list RulerRow.t) (rulerID : Z) (title : string)
  : option Z :=
  match orderByProg
          (filter (fun r => RulerRow.RulerID r = rulerID /\
                            RulerRow.Title r = title) table) with
  | [] => None
  | r :: _ => Some (RulerRow.ProgrTitle r)
  end.

(* ===================================================================== *)
(** * [byRuler]: the lineage view *)
(* ===================================================================== *)

(** [for i, r := range lineageRows]: the index of the first row of the
    focal ruler at the focal position, from index [i]; -1 when none. *)
Fixpoint findCurrent (rows : list RulerRow.t) (i : Z) (myRulerID myProg : Z) : Z :=
  match rows with
  | [] => -1
  | r :: rest =>
      if (RulerRow.RulerID r =? myRulerID) && (RulerRow.ProgrTitle r =? myProg)
      then i
      else findCurrent rest (i + 1) myRulerID myProg
  end.

(** [startIdx] of the lineage window. *)
Definition lineageStart (lineageRows : list RulerRow.t) (myRulerID myProg : Z) : Z :=
  let currentIdx := findCurrent lineageRows 0 myRulerID myProg in
  let currentIdx := if currentIdx =? -1 then 0 (* fallback *) else currentIdx in
  let startIdx := currentIdx - 3 in
  if startIdx <? 0 then 0 else startIdx.

(** [for i := startIdx; i < endIdx; i++ { r := lineageRows[i] ... }], with
    [n] iterations left: the rows shown, in the order they are shown. *)
Fixpoint lineageLoop (lineageRows : list RulerRow.t) (i n : nat) : list RulerRow.t :=
  match n with
  | O => []
  | S n' =>
      match lineageRows !! i with
      | Some r => r :: lineageLoop lineageRows (S i) n'
      | None => []
      end
  end.

(** The rows of the lineage window. *)
Definition lineageWindow (lineageRows : list RulerRow.t) (myRulerID myProg : Z)
  : list RulerRow.t :=
  let startIdx := Z.to_nat (lineageStart lineageRows myRulerID myProg) in
  let endIdx := length lineageRows in
  lineageLoop lineageRows startIdx (endIdx - startIdx).

(** [byRuler(db, "", "listLineage", config, origQuery)]: the batch printed,
    or [None] when the function returns without printing. *)
Definition listLineage (store : Store.t) (config : Config.t) (origQuery : string)
  : option AlfredResult.t :=
  let myRulerID := Atoi (Config.MyRulerID config) in
  match progQuery (Store.periodTable store) myRulerID (Config.MyTitle config) with
  | None => None        (* "Error getting progression number" *)
  | Some currentProg =>
      let lineageRows := lineageQuery (Store.periodTable store) (Config.MyTitle config) in
      let myProg := Atoi (Config.MyTitleProg config) in
      Some (AlfredResult.mk
              (map (lineageItem (Store.iconExists store) myRulerID origQuery)
                   (lineageWindow lineageRows myRulerID myProg)))
  end.

(** [byRuler(db, terms, "searchRuler", config, input)]: the conditions are
    built and dropped ("TODO: searchRuler functionality needs to be
    implemented"); nothing is printed. *)
Definition searchRuler (store : Store.t) (terms : list string)
    (config : Config.t) (origQuery : string) : option AlfredResult.t :=
  None.

(* ===================================================================== *)
(** * [byYear] and the by-name search of [main] *)
(* ===================================================================== *)

(** The tail shared by both searches: "if no results found, show the
    No results message". *)
Definition orPlaceholder (guard : bool) (originalQuery : string)
    (items : list AlfredItem.t) : list AlfredItem.t :=
  if guard && (length items =? 0)%nat
  then (items ++ [noResultsItem originalQuery])%list
  else items.

(** The items of [byYear] before the counters: rulers, then events when
    they are enabled. *)
Definition byYearHits (store : Store.t) (searchTerms : list string)
    (yearTerm : string) (config : Config.t) (originalQuery : string)
  : list AlfredItem.t :=
  let allRows := Store.rulersByYear store (yearCond yearTerm) searchTerms in
  let rulerItems :=
    map (yearRulerItem (Store.iconExists store) config yearTerm originalQuery)
        allRows in
  if Config.ShowEvents config then
    let eventItems :=
      map (yearEventItem yearTerm originalQuery)
          (Store.eventsByYear store (yearCond yearTerm) searchTerms) in
    (rulerItems ++ eventItems)%list
  else rulerItems.

(** [byYear]: search rulers (and events) by year. *)
Definition byYear (store : Store.t) (searchTerms : list string)
    (yearTerm : string) (config : Config.t) (originalQuery : string)
  : AlfredResult.t :=
  let items := byYearHits store searchTerms yearTerm config originalQuery in
  let items := addUnifiedCounters items in
  AlfredResult.mk
    (orPlaceholder (negb (String.eqb yearTerm "")) originalQuery items).

(** The items of the by-name search of [main] before the counters:
    rulers, then events. *)
Definition byNameHits (store : Store.t) (searchTerms : list string)
    (input : string) : list AlfredItem.t :=
  let rulerItems := Store.rulerItemsByName store searchTerms input in
  let eventItems := map (eventItem input) (Store.eventsByName store searchTerms) in
  (rulerItems ++ eventItems)%list.

(** The branch [config.ShowEvents] of [main]: rulers and events by name. *)
Definition byNameWithEvents (store : Store.t) (searchTerms : list string)
    (input : string) : AlfredResult.t :=
  let items := addUnifiedCounters (byNameHits store searchTerms input) in
  AlfredResult.mk (orPlaceholder true input items).

(* ===================================================================== *)
(** * [main] *)
(* ===================================================================== *)

Fixpoint trimLeft (s : string) : string :=
  match s with
  | String c s' => if is_space c then trimLeft s' else s
  | EmptyString => EmptyString
  end.

(** [strings.TrimSpace] (ASCII white space). *)
Definition TrimSpace (s : string) : string :=
  String.rev (trimLeft (String.rev (trimLeft s))).

(** The input of the invocation: the argument, or the restored query. *)
Definition readInput (arg : option string) (restoredQuery : string) : string :=
  let input := match arg with
               | Some a => TrimSpace (ToLower a)
               | None => ""
               end in
  if String.eqb input "" && negb (String.eqb restoredQuery "")
  then TrimSpace (ToLower restoredQuery)
  else input.

(** "Check if any term looks like a number or year range". *)
Definition criteriaTerms (searchTerms : list string) : list string :=
  List.filter isNumberLike searchTerms.

(** "Remove the matched term from search terms". *)
Definition searchTermsWN (searchTerms : list string) (matchedTerm : string)
  : list string :=
  List.filter (fun term => negb (String.eqb term matchedTerm)) searchTerms.

(** The year anchor and the residual terms of a query; [None] when no term
    is year-like. *)
Definition classify (searchTerms : list string) : option (string * list string) :=
  match criteriaTerms searchTerms with
  | [] => None
  | matchedTerm :: _ => Some (matchedTerm, searchTermsWN searchTerms matchedTerm)
  end.

(** The search of a non-empty input. *)
Definition search (store : Store.t) (config : Config.t) (input : string)
  : option AlfredResult.t :=
  let searchTerms := Fields input in
  match classify searchTerms with
  | Some (matchedTerm, residual) =>
      Some (byYear store residual matchedTerm config input)
  | None =>
      if Config.ShowEvents config
      then Some (byNameWithEvents store searchTerms input)
      else searchRuler store searchTerms config input
  end.

(** [main], once the database is open: the batch printed, or [None] when
    the program ends without printing one. *)
Definition main (store : Store.t) (config : Config.t) (arg : option string)
    (restoredQuery originalQueryEnv : string) : option AlfredResult.t :=
  let input := readInput arg restoredQuery in
  if String.eqb (Config.MySource config) "ruler" then
    if negb (String.eqb originalQueryEnv "")
    then listLineage store config originalQueryEnv
    else listLineage store config input
  else if String.eqb input "" then None   (* "No search input provided" *)
  else search store config input.

(* ===================================================================== *)
(** * Notions used to state the properties *)
(* ===================================================================== *)

(** The bytes a pattern can read. *)
Fixpoint reads (r : regex) (c : ascii) : bool :=
  match r with
  | Void | Eps => false
  | Chr d => Ascii.eqb c d
  | Digit => is_digit c
  | Alt r1 r2 | Seq r1 r2 => reads r1 c || reads r2 c
  | Star r1 => reads r1 c
  end.

Fixpoint all_bytes (P : ascii -> bool) (s : string) : bool :=
  match s with
  | EmptyString => true
  | String c s' => P c && all_bytes P s'
  end.

(** A byte of a year-like term: a minus sign, a digit or an asterisk. *)
Definition year_byte (c : ascii) : bool :=
  Ascii.eqb c "-" || is_digit c || Ascii.eqb c "*".

(** Bytes that stand for themselves in a LIKE pattern: below the letters
    and different from the percent sign. *)
Definition plain (c : ascii) : bool :=
  (nat_of_ascii c <? 65)%nat && negb (Ascii.eqb c "%").

(** A rendering is an optional minus sign in front of digits. *)
Inductive rendering : string -> Prop :=
| rendering_pos ds : all_bytes is_digit ds = true -> ds <> "" -> rendering ds
| rendering_neg ds : all_bytes is_digit ds = true -> ds <> "" ->
                     rendering (String "-" ds).

(** What may follow a group: nothing, or a byte that is not a digit. *)
Definition stops (rest : string) : Prop :=
  match rest with
  | EmptyString => True
  | String c _ => is_digit c = false
  end.

(** The residual filter in the words of the specification: every token
    but the anchor itself, the first year-like token. *)
Fixpoint spec_residual (terms : list string) : list string :=
  match terms with
  | [] => []
  | t :: rest => if isNumberLike t then rest else t :: spec_residual rest
  end.

(** The focal position in the words of the specification, counted from 1:
    the position of the entry with the focal ruler id and position index
    when there is one, and 1 otherwise. *)
Definition spec_focal (rows : list RulerRow.t) (rulerID prog : Z) : nat :=
  match list_find (fun r => RulerRow.RulerID r = rulerID /\
                            RulerRow.ProgrTitle r = prog) rows with
  | Some (i, _) => S i
  | None => 1
  end.

(** The window in the words of the specification: positions
    [max(1, p-3)] through [N] of the sequence, counted from 1. *)
Definition spec_window (rows : list RulerRow.t) (p : nat) : list RulerRow.t :=
  drop (Nat.max 1 (p - 3) - 1) rows.


(** The counter of the [i]-th of [total] items, as the code renders it. *)
Definition counterString (i total : nat) : string :=
  formatNumber (Z.of_nat i) ++ "/" ++ formatNumber (Z.of_nat total).

(** The counter in the words of the specification: ["i/M"]. *)
Definition spec_counter (i total : nat) : string :=
  Itoa (Z.of_nat i) ++ "/" ++ Itoa (Z.of_nat total).

(** A subtitle with its counter in front. *)
Definition withCounter (counter subtitle : string) : string :=
  if String.eqb subtitle "" then counter else counter ++ " " ++ subtitle.

(** [batch] lists the hits in order, the [i]-th one (from 1) with its
    counter in front of its subtitle. *)
Definition counted (hits batch : list AlfredItem.t) : Prop :=
  length batch = length hits /\
  forall (i : nat) (hit : AlfredItem.t),
    hits !! i = Some hit ->
    batch !! i =
    Some (AlfredItem.set_Subtitle
            (withCounter (counterString (S i) (length hits))
                         (AlfredItem.Subtitle hit)) hit).

(* ===================================================================== *)
(** * Sample data *)
(* ===================================================================== *)

(** A period row with the fields the lineage view reads. *)
Definition sample_row (rulerID : Z) (name title : string) (prog count : Z)
  : RulerRow.t :=
  RulerRow.mk rulerID name null_string null_string null_string null_string
    null_string prog 1 title null_string count "" prog 0 0 (mkNullInt64 0 false)
    null_string null_string.

(** Five popes and one king. *)
Definition sample_table : list RulerRow.t :=
  [ sample_row 3 "Anacletus" "Pope" 3 5;
    sample_row 1 "Peter" "Pope" 1 5;
    sample_row 9 "Alfred" "King" 1 1;
    sample_row 5 "Evaristus" "Pope" 5 5;
    sample_row 2 "Linus" "Pope" 2 5;
    sample_row 4 "Clement I" "Pope" 4 5 ].

(** An event without notes. *)
Definition sample_event : EventRow.t :=
  EventRow.mk 1 "Storming of the Bastille" 1789 1789 null_string null_string
    (mkNullInt64 1789 true).

(** A store that holds the sample table and answers every by-name event
    query with [n] copies of the sample event. *)
Definition sample_store (n : nat) : Store.t :=
  Store.mk sample_table (fun _ _ => []) (fun _ _ => []) (fun _ _ => [])
    (fun _ => replicate n sample_event) (fun _ => false).


(** Plain search, events shown or not. *)
Definition sample_search (showEvents : bool) : Config.t :=
  Config.mk "" "" "" "" "whoWasWhen.db" showEvents.

(* ===================================================================== *)
(** * The sort of [formatSubtitle], read as passes over a list *)
(* ===================================================================== *)

(** One run of the inner loop for a fixed [i]: [x] is the entry at [i],
    [rest] the entries after it; the result is the entry left at [i] and
    the entries left after it. *)
Fixpoint pass (x : TitleGroup.t) (rest : list TitleGroup.t)
  : TitleGroup.t * list TitleGroup.t :=
  match rest with
  | [] => (x, [])
  | y :: r =>
      if TitleGroup.Rank y <? TitleGroup.Rank x
      then let '(m, r') := pass y r in (m, x :: r')
      else let '(m, r') := pass x r in (m, y :: r')
  end.

(** [n] runs of the outer loop over the entries not yet placed. *)
Fixpoint passes (n : nat) (l : list TitleGroup.t) : list TitleGroup.t :=
  match n, l with
  | S n', x :: rest => let '(m, r') := pass x rest in m :: passes n' r'
  | _, _ => l
  end.

(** Title groups in ascending order of rank. *)
Definition ranked (groups : list TitleGroup.t) : Prop :=
  StronglySorted (fun a b => TitleGroup.Rank a <= TitleGroup.Rank b) groups.

(** The title group of a title among the periods of a ruler. *)
Definition groupOf (periods : list PeriodInfo.t) (title : string) : TitleGroup.t :=
  TitleGroup.mk title
    (filter (fun p => PeriodInfo.Title p = title) periods)
    (getTitleRank title).

(** The subtitle made of title groups in a given order. *)
Definition subtitleOf (groups : list TitleGroup.t) (personalName : NullString)
  : string :=
  let titlesString := Join (map formatTitleGroup groups) "; " in
  if ns_Valid personalName && negb (String.eqb (ns_String personalName) "")
  then ns_String personalName ++ ", " ++ titlesString
  else titlesString.

(** A stable sort by rank, in the words of the specification: groups of
    equal rank keep their order. *)
Fixpoint insertByRank (g : TitleGroup.t) (l : list TitleGroup.t)
  : list TitleGroup.t :=
  match l with
  | [] => [g]
  | x :: r =>
      if TitleGroup.Rank g <=? TitleGroup.Rank x then g :: x :: r
      else x :: insertByRank g r
  end.

Definition spec_stable_sort (l : list TitleGroup.t) : list TitleGroup.t :=
  foldr insertByRank [] l.

(** A ruler who was king twice over and emperor, and one who was pope and
    king. *)
Definition sample_period (title : string) (startYear endYear : Z)
  : PeriodInfo.t :=
  PeriodInfo.mk "" "" title startYear endYear 1.

Definition two_kingdoms : list PeriodInfo.t :=
  [ sample_period "King of England" 1603 1625;
    sample_period "King of Scotland" 1567 1625;
    sample_period "Roman Emperor" 1610 1611 ].

Definition pope_and_king : list PeriodInfo.t :=
  [ sample_period "Pope" 1000 1003; sample_period "King" 990 999 ].

(* ===================================================================== *)
(** * The environment: [getConfig] *)
(* ===================================================================== *)

(** [os.Getenv]: the value of a variable, empty when it is not set. *)
Definition Getenv (env : gmap string string) (key : string) : string :=
  default "" (env !! key).

Section Environment.

(** [filepath.Join] and the result of [os.UserHomeDir] ([None] when it
    fails). *)
Variable filepathJoin : string -> string -> string.
Variable userHomeDir : option string.

(** [getConfig]: the configuration read from the environment; [None] when
    the home directory is needed and cannot be found ([log.Fatalf]). *)
Definition getConfig (env : gmap string string) : option Config.t :=
  let dataFolder := Getenv env "alfred_workflow_data" in
  let dataFolder :=
    if String.eqb dataFolder "" then
      match userHomeDir with
      | None => None
      | Some home =>
          Some (filepathJoin home
                  "Library/Application Support/Alfred/Workflow Data/giovanni-whowaswhen")
      end
    else Some dataFolder in
  let showEventsEnv := Getenv env "SHOW_EVENTS" in
  let showEvents :=
    if String.eqb showEventsEnv "false" || String.eqb showEventsEnv "0"
    then false else true in
  match dataFolder with
  | None => None
  | Some dataFolder =>
      Some (Config.mk (Getenv env "mySource") (Getenv env "myRulerID")
              (Getenv env "myTitle") (Getenv env "mytitleProg")
              (filepathJoin dataFolder "whoWasWhen.db") showEvents)
  end.

(** One invocation, from its environment and argument, once the database
    is in place and open: [getConfig], then [main] with the restored and
    the original query of the environment. *)
Definition run (store : Store.t) (env : gmap string string)
    (arg : option string) : option AlfredResult.t :=
  match getConfig env with
  | None => None
  | Some config =>
      main store config arg (Getenv env "restoredQuery")
           (Getenv env "originalQuery")
  end.

End Environment.

(* ===================================================================== *)
(** * The event lists with counters of their own *)
(* ===================================================================== *)

(** The item [byEvent] and [getEventsByYear] build for the [i]-th of
    [totalCount] events: the counter goes into the subtitle before the
    item is made, so the copy text carries it too. *)
Definition countedEventItem (myTitle originalQuery : string)
    (i totalCount : nat) (e : EventRow.t) : AlfredItem.t :=
  let subtitleString :=
    if ns_Valid (EventRow.Notes e) &&
       negb (String.eqb (ns_String (EventRow.Notes e)) "")
    then ns_String (EventRow.Notes e) else "" in
  let counter := formatNumber (Z.of_nat i + 1) ++ "/" ++
                 formatNumber (Z.of_nat totalCount) in
  let subtitleString :=
    if negb (String.eqb subtitleString "")
    then counter ++ " " ++ subtitleString
    else counter in
  let endYear := Itoa (EventRow.EndYear e) in
  let startYear := Itoa (EventRow.StartYear e) in
  AlfredItem.mk myTitle subtitleString true
    (wikilinkOf (EventRow.Wikipedia e) (EventRow.EventName e))
    (mods [("cmd", travelMod "mySource" endYear);
           ("ctrl", travelMod "mySource" startYear);
           ("cmd+alt", goBackMod originalQuery);
           ("shift", copyMod myTitle subtitleString)])
    (icon "icons/event.png").

(** The headline of an event found by name. *)
Definition eventTitle (e : EventRow.t) : string :=
  let yearString :=
    if EventRow.StartYear e =? EventRow.EndYear e
    then formatYear (EventRow.StartYear e)
    else formatYear (EventRow.StartYear e) ++ "-" ++ formatYear (EventRow.EndYear e) in
  yearString ++ ": " ++ EventRow.EventName e.

(** The headline of an event found by year. *)
Definition yearEventTitle (yearTerm : string) (e : EventRow.t) : string :=
  let yearString := yearStringOf yearTerm (EventRow.Year e) in
  let rangeStr :=
    if negb (EventRow.StartYear e =? EventRow.EndYear e)
    then " (" ++ formatYear (EventRow.StartYear e) ++ "-" ++
         formatYear (EventRow.EndYear e) ++ ")"
    else "" in
  yearString ++ ": " ++ EventRow.EventName e ++ rangeStr.

(** [byEvent]: search events by name, each item with its counter. *)
Definition byEvent (store : Store.t) (searchTerms : list string)
    (originalQuery : string) : list AlfredItem.t :=
  let allEvents := Store.eventsByName store searchTerms in
  let totalCount := length allEvents in
  imap (fun i e => countedEventItem (eventTitle e) originalQuery i totalCount e)
       allEvents.

(** [getEventsByYear]: events by year, each item with its counter. *)
Definition getEventsByYear (store : Store.t) (searchTerms : list string)
    (yearTerm originalQuery : string) : list AlfredItem.t :=
  let allEvents := Store.eventsByYear store (yearCond yearTerm) searchTerms in
  let totalCount := length allEvents in
  imap (fun i e => countedEventItem (yearEventTitle yearTerm e) originalQuery
                     i totalCount e)
       allEvents.

(* ===================================================================== *)
(** * Rulers by name: [getRulerResultsWithoutCounters], [getRulerResults] *)
(* ===================================================================== *)

(** The period kept for a row. *)
Definition periodInfoOf (r : RulerRow.t) : PeriodInfo.t :=
  PeriodInfo.mk (RulerRow.Period r)
    (if ns_Valid (RulerRow.Notes r) then ns_String (RulerRow.Notes r) else "")
    (RulerRow.Title r) (RulerRow.StartYear r) (RulerRow.EndYear r)
    (RulerRow.ProgrTitle r).

(** [rulerPeriods]: the periods of each ruler, in row order. *)
Definition rulerPeriods (rows : list RulerRow.t) : gmap Z (list PeriodInfo.t) :=
  foldl (fun m r =>
           <[RulerRow.RulerID r :=
               (default [] (m !! RulerRow.RulerID r) ++ [periodInfoOf r])%list]> m)
        (∅ : gmap Z (list PeriodInfo.t)) rows.

(** [rulerData]: for each ruler, the last of its rows. *)
Definition rulerData (rows : list RulerRow.t) : gmap Z RulerRow.t :=
  foldl (fun m r => <[RulerRow.RulerID r := r]> m) (∅ : gmap Z RulerRow.t) rows.

(** The zero value of [RulerRow], read from a map without the key. *)
Definition zeroRulerRow : RulerRow.t :=
  RulerRow.mk 0 "" null_string null_string null_string null_string null_string
    0 0 "" null_string 0 "" 0 0 0 (mkNullInt64 0 false) null_string null_string.

(** The earliest start year over the periods, from the first one on. *)
Definition earliestStartOf (first : PeriodInfo.t) (periods : list PeriodInfo.t) : Z :=
  fold_left (fun earliestStart p =>
               if PeriodInfo.StartYear p <? earliestStart
               then PeriodInfo.StartYear p else earliestStart)
            periods (PeriodInfo.StartYear first).

(** The latest end year over the periods, from the first one on. *)
Definition latestEndOf (first : PeriodInfo.t) (periods : list PeriodInfo.t) : Z :=
  fold_left (fun latestEnd p =>
               if latestEnd <? PeriodInfo.EndYear p
               then PeriodInfo.EndYear p else latestEnd)
            periods (PeriodInfo.EndYear first).

Section RulerResults.

Variable iconExists : string -> bool.

(** [db.QueryRow(pluralQuery).Scan(&correctTitlePlural)]: what the table of
    titles answers for a title; [None] when [Scan] returns an error (the
    title has no row). *)
Variable pluralQuery : string -> option NullString.

(** The item of one ruler, given the subtitle and the plural shown by the
    "show all" action. *)
Definition rulerItem (r : RulerRow.t) (periods : list PeriodInfo.t)
    (firstPeriod : PeriodInfo.t) (subtitleString plural originalQuery : string)
  : AlfredItem.t :=
  let epithetString :=
    if ns_Valid (RulerRow.Epithet r) &&
       negb (String.eqb (ns_String (RulerRow.Epithet r)) "")
    then " (" ++ ns_String (RulerRow.Epithet r) ++ ")" else "" in
  let myTitle := RulerRow.Name r ++ epithetString in
  let startYear := Itoa (earliestStartOf firstPeriod periods) in
  let endYear := Itoa (latestEndOf firstPeriod periods) in
  let highestRankedTitle := getHighestRankedTitle periods in
  AlfredItem.mk myTitle subtitleString true
    (wikilinkOf (RulerRow.Wikipedia r) (RulerRow.Name r))
    (mods [("cmd", travelMod "mySource" endYear);
           ("ctrl", travelMod "mySource" startYear);
           ("alt", lineageMod plural (RulerRow.RulerID r)
                     (PeriodInfo.ProgrTitle firstPeriod)
                     highestRankedTitle originalQuery);
           ("cmd+alt", goBackMod originalQuery);
           ("shift", copyMod myTitle subtitleString)])
    (icon (iconPathOf iconExists highestRankedTitle)).

(** The subtitle of a ruler: the biography when there is one, otherwise
    [formatSubtitle], with the title groups visited in the order [iter]. *)
Definition rulerSubtitle (r : RulerRow.t)
    (iter : list (string * list PeriodInfo.t)) : string :=
  if ns_Valid (RulerRow.Biography r) &&
     negb (String.eqb (ns_String (RulerRow.Biography r)) "")
  then ns_String (RulerRow.Biography r)
  else formatSubtitleIter iter (RulerRow.PersonalName r).

(** The loop [for rulerID, periods := range rulerPeriods] of
    [getRulerResultsWithoutCounters], over the entries in the order they
    are visited; [titleOrder] gives, for each ruler, the order in which
    [formatSubtitle] visits its title groups.  [None] is a run-time panic
    ([periods[0]] out of range); a title without a row in the table of
    titles ends the function with an empty list. *)
Fixpoint rulerLoop (data : gmap Z RulerRow.t) (originalQuery : string)
    (titleOrder : Z -> list (string * list PeriodInfo.t))
    (order : list (Z * list PeriodInfo.t)) (rulerItems : list AlfredItem.t)
  : option (list AlfredItem.t) :=
  match order with
  | [] => Some rulerItems
  | (rulerID, periods) :: rest =>
      let r := default zeroRulerRow (data !! rulerID) in
      let subtitleString := rulerSubtitle r (titleOrder rulerID) in
      match periods with
      | [] => None
      | firstPeriod :: _ =>
          let highestRankedTitle := getHighestRankedTitle periods in
          match pluralQuery highestRankedTitle with
          | None => Some []
          | Some correctTitlePlural =>
              let item :=
                rulerItem r periods firstPeriod subtitleString
                  (getTitlePlural correctTitlePlural highestRankedTitle)
                  originalQuery in
              rulerLoop data originalQuery titleOrder rest
                        (rulerItems ++ [item])%list
          end
      end
  end.

(** [getRulerResultsWithoutCounters] on the rows of the by-name query,
    given the orders in which its maps are visited. *)
Definition getRulerResultsWithoutCountersIter (rows : list RulerRow.t)
    (originalQuery : string)
    (order : list (Z * list PeriodInfo.t))
    (titleOrder : Z -> list (string * list PeriodInfo.t))
  : option (list AlfredItem.t) :=
  rulerLoop (rulerData rows) originalQuery titleOrder order [].

(** The orders in which the maps of one call can be visited. *)
Definition visits (rows : list RulerRow.t)
    (order : list (Z * list PeriodInfo.t))
    (titleOrder : Z -> list (string * list PeriodInfo.t)) : Prop :=
  order ≡ₚ map_to_list (rulerPeriods rows) /\
  forall rulerID periods,
    (rulerID, periods) ∈ order ->
    titleOrder rulerID ≡ₚ map_to_list (groupByTitle periods).

(** [getRulerResultsWithoutCounters rows .. out]: [out] is a result the
    function can have. *)
Definition getRulerResultsWithoutCounters (rows : list RulerRow.t)
    (originalQuery : string) (out : option (list AlfredItem.t)) : Prop :=
  exists order titleOrder,
    visits rows order titleOrder /\
    out = getRulerResultsWithoutCountersIter rows originalQuery
            order titleOrder.

(** The loop of [getRulerResults]: the plural comes from the ruler's row,
    and no title is looked up. *)
Fixpoint legacyRulerLoop (data : gmap Z RulerRow.t) (originalQuery : string)
    (titleOrder : Z -> list (string * list PeriodInfo.t))
    (order : list (Z * list PeriodInfo.t)) (rulerItems : list AlfredItem.t)
  : option (list AlfredItem.t) :=
  match order with
  | [] => Some rulerItems
  | (rulerID, periods) :: rest =>
      let r := default zeroRulerRow (data !! rulerID) in
      let subtitleString := rulerSubtitle r (titleOrder rulerID) in
      match periods with
      | [] => None
      | firstPeriod :: _ =>
          let item :=
            rulerItem r periods firstPeriod subtitleString
              (getTitlePlural (RulerRow.TitlePlural r) (RulerRow.Title r))
              originalQuery in
          legacyRulerLoop data originalQuery titleOrder rest
                          (rulerItems ++ [item])%list
      end
  end.

(** [getRulerResults], given the orders in which its maps are visited:
    the items, then "add counters to all ruler items". *)
Definition getRulerResultsIter (rows : list RulerRow.t) (originalQuery : string)
    (order : list (Z * list PeriodInfo.t))
    (titleOrder : Z -> list (string * list PeriodInfo.t))
  : option (list AlfredItem.t) :=
  option_map addUnifiedCounters
    (legacyRulerLoop (rulerData rows) originalQuery titleOrder order []).

End RulerResults.

(* ===================================================================== *)
(** * Notions used to state the further properties *)
(* ===================================================================== *)

(** A text without its commas. *)
Fixpoint stripCommas (s : string) : string :=
  match s with
  | EmptyString => EmptyString
  | String c s' =>
      if Ascii.eqb c "," then stripCommas s' else String c (stripCommas s')
  end.

(** [,\d\d\d]: a separator and its group of three digits. *)
Definition thousands_group : regex :=
  Seq (Chr ",") (Seq Digit (Seq Digit Digit)).

(** [\d\d?\d?(,\d\d\d)*]: a number with thousands separators. *)
Definition grouped_pattern : regex :=
  Seq (Seq Digit (Seq (Opt Digit) (Opt Digit))) (Star thousands_group).

(** The tests of [getTitleRank] as a table: the keywords of each test and
    the rank it returns, in the order of the tests. *)
Definition rankTable : list (list string * Z) :=
  [ (["roman emperor"], 1);
    (["byzantine emperor"], 2);
    (["holy roman emperor"], 3);
    (["king"; "queen"], 10);
    (["emperor"], 15);
    (["tsar"; "czar"], 20);
    (["president"], 30);
    (["prime minister"; "premier"], 35);
    (["chancellor"], 40);
    (["duke"; "duchess"], 50);
    (["pope"], 55);
    (["patriarch"], 60);
    (["consul"], 100);
    (["tribune"], 110);
    (["dictator"], 120) ].

(** The rank of the first test of a table that a lower-cased title
    passes; 1000 when it passes none. *)
Fixpoint lookupRank (table : list (list string * Z)) (titleLower : string) : Z :=
  match table with
  | [] => 1000
  | (keywords, rank) :: rest =>
      if existsb (Contains titleLower) keywords then rank
      else lookupRank rest titleLower
  end.

(** The rank of a period's title. *)
Definition periodRank (p : PeriodInfo.t) : Z := getTitleRank (PeriodInfo.Title p).

(** Two items that agree in all but the "copy" action. *)
Definition same_but_copy (a b : AlfredItem.t) : Prop :=
  AlfredItem.Title a = AlfredItem.Title b /\
  AlfredItem.Subtitle a = AlfredItem.Subtitle b /\
  AlfredItem.Valid a = AlfredItem.Valid b /\
  AlfredItem.Arg a = AlfredItem.Arg b /\
  AlfredItem.Icon a = AlfredItem.Icon b /\
  forall k, k <> "shift" -> AlfredItem.Mods a !! k = AlfredItem.Mods b !! k.

(** The text that the "copy" action of an item puts on the clipboard. *)
Definition copyText (item : AlfredItem.t) : option string :=
  AlfredMod.Arg <$> AlfredItem.Mods item !! "shift".
(* ===================================================================== *)
(** * Facts about strings *)
(* ===================================================================== *)

Section StringFacts.

Lemma app_String c (a b : string) : String c a ++ b = String c (a ++ b).
Proof. reflexivity. Qed.

Lemma app_empty_l (a : string) : "" ++ a = a.
Proof. reflexivity. Qed.

Lemma app_empty_r (a : string) : a ++ "" = a.
Proof. induction a as [|x a IH]; [reflexivity | now rewrite app_String, IH]. Qed.

Lemma string_app_assoc (a b c : string) : (a ++ b) ++ c = a ++ b ++ c.
Proof.
  induction a as [|x a IH]; [reflexivity | now rewrite !app_String, IH].
Qed.

Lemma string_length_app (a b : string) :
  String.length (a ++ b) = (String.length a + String.length b)%nat.
Proof.
  induction a as [|x a IH]; [reflexivity | rewrite app_String; simpl; now rewrite IH].
Qed.

Create Rewrite HintDb strings.
#[local] Hint Rewrite app_String app_empty_l app_empty_r string_app_assoc
  : strings.

Lemma HasPrefix_spec s p : HasPrefix s p = true <-> exists post, s = p ++ post.
Proof.
  revert s; induction p as [|c p IH]; intros s; simpl.
  - split; [intros _; exists s; reflexivity | reflexivity].
  - destruct s as [|d s].
    + split; [discriminate | intros [post H]; discriminate].
    + rewrite andb_true_iff, IH. split.
      * intros [Hc [post ->]]. apply Ascii.eqb_eq in Hc as ->. eauto.
      * intros [post H]. rewrite app_String in H. injection H as -> ->.
        split; [apply Ascii.eqb_refl | eauto].
Qed.

Lemma Contains_spec s sub :
  Contains s sub = true <-> exists pre post, s = pre ++ sub ++ post.
Proof.
  induction s as [|d s IH].
  - simpl. rewrite orb_false_r, HasPrefix_spec. split.
    + intros [post H]. exists "", post. exact H.
    + intros [pre [post H]]. destruct pre; [eauto | discriminate].
  - cbn [Contains]. rewrite orb_true_iff, IH, HasPrefix_spec. split.
    + intros [[post H] | [pre [post H]]].
      * exists "", post. exact H.
      * exists (String d pre), post. rewrite app_String. now rewrite H.
    + intros [pre [post H]]. destruct pre as [|c pre].
      * left. eauto.
      * right. rewrite app_String in H. injection H as -> ->. eauto.
Qed.

(** A text that contains [a ++ b] contains [b]. *)
Lemma Contains_suffix_of_needle s a b :
  Contains s (a ++ b) = true -> Contains s b = true.
Proof.
  rewrite !Contains_spec. intros [pre [post ->]].
  exists (pre ++ a), post. now autorewrite with strings.
Qed.

End StringFacts.

(** ** Decimal rendering *)

Lemma to_int_not_nil z : Z.to_int z <> Pos Nil /\ Z.to_int z <> Neg Nil.
Proof.
  destruct z as [|p|p]; simpl; split; try discriminate;
    intros [= H]; exact (Unsigned.to_uint_nonnil p H).
Qed.

Lemma parse_decimal_Itoa z : parse_decimal (Itoa z) = Some z.
Proof.
  unfold parse_decimal, Itoa.
  destruct (to_int_not_nil z) as [Hp Hn].
  rewrite NilZero.isi by assumption. simpl. now rewrite DecimalZ.of_to.
Qed.

Lemma Itoa_inj a b : Itoa a = Itoa b -> a = b.
Proof.
  intros H. apply (f_equal parse_decimal) in H.
  rewrite !parse_decimal_Itoa in H. congruence.
Qed.

(** The shape of a decimal rendering. *)
Lemma string_of_uint_digits d :
  all_bytes is_digit (NilEmpty.string_of_uint d) = true.
Proof. induction d; simpl; trivial. Qed.

Lemma string_of_uint_nonempty d :
  d <> Nil -> NilEmpty.string_of_uint d <> "".
Proof. destruct d; simpl; congruence. Qed.

Lemma Itoa_nonneg z :
  0 <= z -> all_bytes is_digit (Itoa z) = true /\ Itoa z <> "".
Proof.
  intros Hz. unfold Itoa.
  destruct z as [|p|p]; [split; [reflexivity | discriminate] | | lia].
  simpl. pose proof (Unsigned.to_uint_nonnil p) as Hnil.
  assert (Hs : NilZero.string_of_uint (Pos.to_uint p) =
               NilEmpty.string_of_uint (Pos.to_uint p))
    by (destruct (Pos.to_uint p); [congruence | reflexivity ..]).
  rewrite Hs. split.
  - apply string_of_uint_digits.
  - now apply string_of_uint_nonempty.
Qed.

Lemma Itoa_neg z : z < 0 -> Itoa z = String "-" (Itoa (- z)).
Proof. destruct z; try lia. reflexivity. Qed.

Lemma Itoa_rendering z : rendering (Itoa z).
Proof.
  destruct (Z.lt_ge_cases z 0) as [H|H].
  - rewrite (Itoa_neg z H). apply rendering_neg; apply Itoa_nonneg; lia.
  - apply rendering_pos; now apply Itoa_nonneg.
Qed.

(* ===================================================================== *)
(** * C10: rendering of years *)
(* ===================================================================== *)




(** The one [int] whose negation wraps: the sign stays. *)
Lemma formatYear_min_int :
  formatYear min_int = "-9223372036854775808 BC".
Proof. vm_compute. reflexivity. Qed.

(* ===================================================================== *)
(** * C4: the rank of a title *)
(* ===================================================================== *)

(** The third test of [getTitleRank] can never succeed: a title that
    contains "holy roman emperor" contains "roman emperor", and the first
    test has already returned 1. *)
Lemma getTitleRank_never_3 (title : string) : getTitleRank title <> 3.
Proof.
  unfold getTitleRank.
  destruct (Contains (ToLower title) "roman emperor") eqn:H1; [discriminate|].
  destruct (Contains (ToLower title) "byzantine emperor"); [discriminate|].
  destruct (Contains (ToLower title) "holy roman emperor") eqn:H3.
  - apply (Contains_suffix_of_needle _ "holy " "roman emperor") in H3. congruence.
  - repeat match goal with
           | |- context [if ?b then _ else _] => destruct b; try discriminate
           end.
Qed.

(** C4. The title "Holy Roman Emperor" gets rank 1, the rank of
    "Roman Emperor", and not the rank 3 of the table; no title at all gets
    rank 3. *)
Theorem getTitleRank_holy_roman_emperor :
  getTitleRank "Holy Roman Emperor" = 1 /\
  forall title, getTitleRank title <> 3.
Proof.
  split.
  - reflexivity.
  - apply getTitleRank_never_3.
Qed.

(** The other rows of the table, on titles that match one row only. *)
Lemma getTitleRank_table :
  map getTitleRank
      ["Roman Emperor"; "Byzantine Emperor"; "King"; "Queen"; "Emperor";
       "Tsar"; "Czar"; "President"; "Prime Minister"; "Premier";
       "Chancellor"; "Duke"; "Duchess"; "Pope"; "Patriarch"; "Consul";
       "Tribune"; "Dictator"; "English Monarch"]
  = [1; 2; 10; 10; 15; 20; 20; 30; 35; 35; 40; 50; 50; 55; 60; 100; 110; 120; 1000].
Proof. reflexivity. Qed.

(* ===================================================================== *)
(** * The matcher is sound for the language of a pattern *)
(* ===================================================================== *)

Section RegexpFacts.

Lemma nullable_lang r : nullable r = true -> lang r "".
Proof.
  induction r as [| | c | | r1 IH1 r2 IH2 | r1 IH1 r2 IH2 | r IH]; simpl;
    try discriminate; intros H.
  - constructor.
  - apply orb_true_iff in H as [H|H]; [apply L_AltL | apply L_AltR]; auto.
  - apply andb_true_iff in H as [H1 H2].
    change "" with ("" ++ ""). constructor; auto.
  - constructor.
Qed.

Lemma deriv_lang c r : forall s, lang (deriv c r) s -> lang r (String c s).
Proof.
  induction r as [| | d | | r1 IH1 r2 IH2 | r1 IH1 r2 IH2 | r IH];
    simpl; intros s H.
  - inversion H.
  - inversion H.
  - destruct (Ascii.eqb_spec c d) as [->|]; inversion H; subst. constructor.
  - destruct (is_digit c) eqn:Hd; inversion H; subst. now constructor.
  - inversion H; subst; [apply L_AltL | apply L_AltR]; auto.
  - assert (Hseq : forall s, lang (Seq (deriv c r1) r2) s ->
                             lang (Seq r1 r2) (String c s)).
    { intros s' H'. inversion H'; subst.
      rewrite <- app_String. constructor; auto. }
    destruct (nullable r1) eqn:Hn; [|auto].
    inversion H; subst; [auto|].
    rewrite <- (app_empty_l (String c s)).
    constructor; [now apply nullable_lang | auto].
  - inversion H; subst. rewrite <- app_String. constructor; auto.
Qed.

Lemma full_match_lang s : forall r, full_match r s = true -> lang r s.
Proof.
  induction s as [|c s IH]; simpl; intros r H.
  - now apply nullable_lang.
  - apply deriv_lang. auto.
Qed.

Lemma all_bytes_app P a b :
  all_bytes P (a ++ b) = all_bytes P a && all_bytes P b.
Proof.
  induction a as [|x a IH]; [reflexivity|].
  rewrite app_String. simpl. now rewrite IH, andb_assoc.
Qed.

Lemma all_bytes_weaken (P Q : ascii -> bool) s :
  (forall c, P c = true -> Q c = true) ->
  all_bytes P s = true -> all_bytes Q s = true.
Proof.
  intros HPQ. induction s as [|c s IH]; simpl; [trivial|].
  rewrite !andb_true_iff. intros [H1 H2]. auto.
Qed.

Lemma lang_reads r s : lang r s -> all_bytes (reads r) s = true.
Proof.
  induction 1; simpl; rewrite ?all_bytes_app, ?andb_true_r; trivial.
  - apply Ascii.eqb_refl.
  - eapply all_bytes_weaken; [|eassumption]. intros c' ->. reflexivity.
  - eapply all_bytes_weaken; [|eassumption]. intros c' ->. apply orb_true_r.
  - apply andb_true_iff; split;
      (eapply all_bytes_weaken; [|eassumption]); intros c' ->;
      [reflexivity | apply orb_true_r].
  - apply andb_true_iff; split; assumption.
Qed.

End RegexpFacts.

Lemma isNumberLike_bytes term :
  isNumberLike term = true -> all_bytes year_byte term = true.
Proof.
  intros H. apply full_match_lang, lang_reads in H.
  eapply all_bytes_weaken; [|exact H].
  intros c. unfold year_byte. simpl.
  destruct (Ascii.eqb c "-"), (is_digit c), (Ascii.eqb c "*"); simpl; trivial.
Qed.

(* ===================================================================== *)
(** * The matcher is complete for the language of a pattern *)
(* ===================================================================== *)

Section RegexpComplete.

Lemma app_eq_empty (a b : string) : a ++ b = "" -> a = "" /\ b = "".
Proof. destruct a; [now split | discriminate]. Qed.

Lemma lang_nullable r s : lang r s -> s = "" -> nullable r = true.
Proof.
  induction 1; intros Hs; simpl; try discriminate; trivial.
  - now rewrite IHlang.
  - rewrite IHlang by assumption. apply orb_true_r.
  - apply app_eq_empty in Hs as [-> ->]. now rewrite IHlang1, IHlang2.
Qed.

Lemma lang_deriv r s' :
  lang r s' -> forall c s, s' = String c s -> lang (deriv c r) s.
Proof.
  induction 1 as [ | d | d Hd | r1 r2 u H IH | r1 r2 u H IH
                 | r1 r2 u1 u2 H1 IH1 H2 IH2 | r | r u1 u2 H1 IH1 H2 IH2 ];
    intros c s Hs; simpl.
  - discriminate.
  - injection Hs as <- <-. rewrite Ascii.eqb_refl. constructor.
  - injection Hs as <- <-. rewrite Hd. constructor.
  - apply L_AltL. eauto.
  - apply L_AltR. eauto.
  - destruct u1 as [|x u1].
    + rewrite app_empty_l in Hs.
      rewrite (lang_nullable r1 "" H1 eq_refl). apply L_AltR. eauto.
    + rewrite app_String in Hs. injection Hs as -> <-.
      assert (Hseq : lang (Seq (deriv c r1) r2) (u1 ++ u2))
        by (constructor; eauto).
      destruct (nullable r1); [now apply L_AltL | assumption].
  - discriminate.
  - destruct u1 as [|x u1].
    + rewrite app_empty_l in Hs. apply (IH2 c s Hs).
    + rewrite app_String in Hs. injection Hs as -> <-.
      constructor; eauto.
Qed.

Lemma lang_full_match s : forall r, lang r s -> full_match r s = true.
Proof.
  induction s as [|c s IH]; simpl; intros r H.
  - now apply (lang_nullable r "").
  - apply IH. now apply (lang_deriv r (String c s)).
Qed.

Lemma full_match_iff r s : full_match r s = true <-> lang r s.
Proof. split; [apply full_match_lang | apply lang_full_match]. Qed.

Lemma lang_star_digits ds :
  all_bytes is_digit ds = true -> lang (Star Digit) ds.
Proof.
  induction ds as [|c ds IH]; simpl; intros H; [constructor|].
  apply andb_true_iff in H as [Hc Hds].
  change (String c ds) with (String c "" ++ ds).
  constructor; [now constructor | auto].
Qed.

End RegexpComplete.

(* ===================================================================== *)
(** * C1: wildcard and exact years *)
(* ===================================================================== *)

Section Wildcards.

Lemma year_byte_plain c : year_byte c = true -> plain c = true.
Proof.
  unfold year_byte, plain, is_digit. intros H.
  apply orb_true_iff in H as [H|H]; [apply orb_true_iff in H as [H|H]|].
  - apply Ascii.eqb_eq in H as ->. reflexivity.
  - apply andb_true_iff in H as [H1 H2].
    apply Nat.leb_le in H1, H2.
    apply andb_true_iff; split.
    + apply Nat.ltb_lt. lia.
    + destruct (Ascii.eqb_spec c "%") as [->|]; [|reflexivity].
      vm_compute in H1. lia.
  - apply Ascii.eqb_eq in H as ->. reflexivity.
Qed.

Lemma lower_byte_below c : (nat_of_ascii c < 65)%nat -> lower_byte c = c.
Proof.
  intros H. unfold lower_byte.
  destruct (Nat.leb_spec 65 (nat_of_ascii c)); [lia | reflexivity].
Qed.

Lemma lower_byte_eq_below p c :
  (nat_of_ascii p < 65)%nat -> lower_byte c = p -> c = p.
Proof.
  intros Hp. unfold lower_byte.
  destruct (Nat.leb_spec 65 (nat_of_ascii c)) as [H1|H1]; simpl; [|trivial].
  destruct (Nat.leb_spec (nat_of_ascii c) 90) as [H2|H2]; [|trivial].
  intros <-. rewrite nat_ascii_embedding in Hp; [exfalso; lia | lia].
Qed.

Lemma like_plain p pat text :
  plain p = true ->
  Sqlite.like (String p pat) text =
  match text with
  | EmptyString => false
  | String c text' => Ascii.eqb p c && Sqlite.like pat text'
  end.
Proof.
  unfold plain. intros H. apply andb_true_iff in H as [Hlt Hpct].
  apply Nat.ltb_lt in Hlt. apply negb_true_iff in Hpct.
  cbn [Sqlite.like]. rewrite Hpct.
  destruct (Ascii.eqb_spec p "_") as [->|_]; [vm_compute in Hlt; lia|].
  destruct text as [|c text']; [reflexivity|]. f_equal.
  rewrite (lower_byte_below p Hlt).
  destruct (Ascii.eqb_spec p (lower_byte c)) as [Heq|Hne];
    destruct (Ascii.eqb_spec p c) as [Heq'|Hne']; trivial.
  - symmetry in Heq. apply lower_byte_eq_below in Heq; [congruence | assumption].
  - subst c. now rewrite (lower_byte_below p Hlt) in Hne.
Qed.

Lemma like_wildcards k text :
  Sqlite.like (RepeatByte "_" k) text = (String.length text =? k)%nat.
Proof.
  revert text; induction k as [|k IH]; intros [|c text]; try reflexivity.
  cbn [RepeatByte Sqlite.like]. simpl. apply IH.
Qed.

(** A pattern made of plain bytes and [k] underscores matches exactly the
    texts that start with the plain bytes and are [k] bytes longer. *)
Lemma like_prefix_wildcards prefix k text :
  all_bytes plain prefix = true ->
  Sqlite.like (prefix ++ RepeatByte "_" k) text =
  HasPrefix text prefix && (String.length text =? String.length prefix + k)%nat.
Proof.
  revert text; induction prefix as [|p prefix IH]; intros text Hp.
  - rewrite app_empty_l. simpl. apply like_wildcards.
  - simpl in Hp. apply andb_true_iff in Hp as [Hp Hrest].
    rewrite app_String, like_plain by assumption.
    destruct text as [|c text]; [reflexivity|].
    simpl. rewrite IH by assumption. now rewrite andb_assoc.
Qed.

(** [TrimRight] cuts the text before its trailing run of the byte. *)
Lemma TrimRight_decomp t c :
  t = TrimRight t c ++ RepeatByte c (len t - len (TrimRight t c)).
Proof.
  unfold len. induction t as [|d t IH]; [reflexivity|].
  cbn [TrimRight]. destruct (TrimRight t c) as [|x u] eqn:Htrim.
  - rewrite app_empty_l in IH. simpl in IH. rewrite Nat.sub_0_r in IH.
    destruct (Ascii.eqb_spec d c) as [->|Hne].
    + rewrite app_empty_l. simpl. now rewrite <- IH.
    + rewrite app_String, app_empty_l. simpl. rewrite Nat.sub_0_r. now rewrite <- IH.
  - rewrite app_String. simpl in *. now rewrite <- IH.
Qed.

Lemma TrimRight_length t c : (len (TrimRight t c) <= len t)%nat.
Proof.
  rewrite (TrimRight_decomp t c) at 2. unfold len. rewrite string_length_app. lia.
Qed.

Lemma slice_to_app a b : slice_to (a ++ b) (String.length a) = a.
Proof.
  induction a as [|x a IH]; [destruct b; reflexivity|].
  rewrite app_String. simpl. now rewrite IH.
Qed.

Lemma yearPrefix_TrimRight t : yearPrefix t = TrimRight t "*".
Proof.
  unfold yearPrefix, asteriskCount.
  pose proof (TrimRight_length t "*") as Hle.
  replace (len t - (len t - len (TrimRight t "*")))%nat
    with (len (TrimRight t "*")) by lia.
  rewrite (TrimRight_decomp t "*") at 1. apply slice_to_app.
Qed.

Lemma yearTerm_decomp t :
  t = yearPrefix t ++ RepeatByte "*" (asteriskCount t).
Proof. rewrite yearPrefix_TrimRight. apply TrimRight_decomp. Qed.

(** The terms that are neither kind of range get the LIKE condition. *)
Lemma yearCond_like t :
  CountByte t "-" = 0%nat \/
  (CountByte t "-" = 1%nat /\ HasPrefix t "-" = true) ->
  yearCond t = YearLike (yearPrefix t ++ RepeatByte "_" (asteriskCount t)).
Proof.
  unfold yearCond. intros [H | [H1 H2]].
  - rewrite H. reflexivity.
  - rewrite H1, H2. reflexivity.
Qed.

End Wildcards.



Lemma digit_cases c :
  is_digit c = true ->
  In c ["0"; "1"; "2"; "3"; "4"; "5"; "6"; "7"; "8"; "9"]%char.
Proof.
  destruct c as [[] [] [] [] [] [] [] []]; intros H;
    try discriminate H; simpl; tauto.
Qed.

(** The first example of the specification: "177*" selects the years
    1770 to 1779 and no other. *)
Lemma byYear_177_star (y : Z) :
  yearSelected "177*" y = true <-> 1770 <= y <= 1779.
Proof.
  assert (Hc : yearSelected "177*" y =
               Sqlite.like ("177" ++ RepeatByte "_" 1) (Itoa y)) by reflexivity.
  rewrite Hc, (like_prefix_wildcards "177" 1 (Itoa y) eq_refl).
  rewrite andb_true_iff, Nat.eqb_eq. split.
  - intros [Hpre Hlen]. apply HasPrefix_spec in Hpre as [post Hpost].
    rewrite Hpost, string_length_app in Hlen.
    destruct post as [|c [|c' post]]; simpl in Hlen; try lia.
    assert (Hd : is_digit c = true).
    { destruct (Z.lt_ge_cases y 0) as [Hneg|Hpos].
      - rewrite (Itoa_neg y Hneg) in Hpost. discriminate Hpost.
      - destruct (Itoa_nonneg y Hpos) as [Hds _]. rewrite Hpost in Hds.
        rewrite all_bytes_app in Hds. apply andb_true_iff in Hds as [_ Hds].
        simpl in Hds. rewrite andb_true_r in Hds. exact Hds. }
    apply digit_cases in Hd. simpl in Hd.
    assert (Hy : In y [1770; 1771; 1772; 1773; 1774; 1775; 1776; 1777; 1778; 1779]).
    { apply (f_equal parse_decimal) in Hpost.
      rewrite parse_decimal_Itoa in Hpost.
      repeat (destruct Hd as [<- | Hd];
              [injection Hpost as ->; simpl; tauto|]).
      destruct Hd. }
    simpl in Hy. lia.
  - intros Hy.
    assert (Hcases : In y [1770; 1771; 1772; 1773; 1774; 1775; 1776; 1777; 1778; 1779])
      by (simpl; lia).
    simpl in Hcases.
    repeat (destruct Hcases as [<- | Hcases]; [split; reflexivity|]).
    destruct Hcases.
Qed.

(* ===================================================================== *)
(** * C6: ranges *)
(* ===================================================================== *)

Section Ranges.

Lemma digit_not_minus c : is_digit c = true -> Ascii.eqb c "-" = false.
Proof.
  intros H. destruct (Ascii.eqb_spec c "-") as [->|]; [discriminate | reflexivity].
Qed.

Lemma CountByte_app a b c :
  CountByte (a ++ b) c = (CountByte a c + CountByte b c)%nat.
Proof.
  induction a as [|x a IH]; [reflexivity|].
  rewrite app_String. simpl. rewrite IH. lia.
Qed.

Lemma CountByte_digits ds :
  all_bytes is_digit ds = true -> CountByte ds "-" = 0%nat.
Proof.
  induction ds as [|c ds IH]; simpl; [trivial|].
  intros H. apply andb_true_iff in H as [Hc Hds].
  now rewrite (digit_not_minus c Hc), IH.
Qed.



Lemma span_digits_stops rest : stops rest -> span_digits rest = ("", rest).
Proof. destruct rest as [|c rest]; simpl; [trivial | now intros ->]. Qed.

Lemma span_digits_app ds rest :
  all_bytes is_digit ds = true -> stops rest ->
  span_digits (ds ++ rest) = (ds, rest).
Proof.
  induction ds as [|c ds IH]; intros H Hrest.
  - rewrite app_empty_l. now apply span_digits_stops.
  - simpl in H. apply andb_true_iff in H as [Hc Hds].
    rewrite app_String. cbn [span_digits]. now rewrite Hc, IH.
Qed.

Lemma signed_group_rendering g rest :
  rendering g -> stops rest -> signed_group (g ++ rest) = Some (g, rest).
Proof.
  intros [ds Hds Hne | ds Hds Hne] Hrest; unfold signed_group.
  - destruct ds as [|c ds]; [congruence|].
    simpl in Hds. apply andb_true_iff in Hds as [Hc Hds].
    rewrite app_String. cbn [strip_minus]. rewrite (digit_not_minus c Hc).
    rewrite <- app_String, span_digits_app; trivial.
    simpl. now rewrite Hc, Hds.
  - rewrite app_String. cbn [strip_minus]. rewrite Ascii.eqb_refl.
    rewrite span_digits_app by assumption.
    destruct ds; [congruence | reflexivity].
Qed.

Lemma rendering_nonempty g : rendering g -> g <> "".
Proof. intros [ds _ Hne | ds _ _]; [assumption | discriminate]. Qed.

(** The two-group form of a range of two renderings. *)
Lemma two_group_renderings g1 g2 :
  rendering g1 -> rendering g2 ->
  two_group (g1 ++ "-" ++ g2) = Some (g1, g2).
Proof.
  intros H1 H2. unfold two_group.
  rewrite (signed_group_rendering g1 ("-" ++ g2) H1) by reflexivity.
  rewrite app_String, app_empty_l. cbn [strip_minus]. rewrite Ascii.eqb_refl.
  rewrite <- (app_empty_r g2) at 1.
  now rewrite (signed_group_rendering g2 "" H2).
Qed.


Lemma CountByte_rendering_nonneg z :
  0 <= z -> CountByte (Itoa z) "-" = 0%nat.
Proof. intros H. apply CountByte_digits, Itoa_nonneg, H. Qed.

Lemma CountByte_rendering_neg z :
  z < 0 -> CountByte (Itoa z) "-" = 1%nat.
Proof.
  intros H. rewrite (Itoa_neg z H). simpl.
  rewrite CountByte_rendering_nonneg; lia.
Qed.



Lemma rendering_year_run g : rendering g -> lang year_run g.
Proof.
  intros [ds Hds _ | ds Hds _]; unfold year_run.
  - rewrite <- (app_empty_l ds), <- (app_empty_r ds).
    constructor; [apply L_AltR; constructor|].
    constructor; [now apply lang_star_digits | constructor].
  - change (String "-" ds) with ("-" ++ ds). rewrite <- (app_empty_r ds).
    constructor; [apply L_AltL; constructor|].
    constructor; [now apply lang_star_digits | constructor].
Qed.


(** So is a single rendering. *)
Lemma isNumberLike_rendering g : rendering g -> isNumberLike g = true.
Proof.
  intros H. apply lang_full_match. apply L_AltL. now apply rendering_year_run.
Qed.


End Ranges.


(* ===================================================================== *)
(** * The scanner of [extractRange] finds the groups of its pattern *)
(* ===================================================================== *)

Section Groups.

Lemma span_digits_spec s ds rest :
  span_digits s = (ds, rest) ->
  s = ds ++ rest /\ all_bytes is_digit ds = true /\ stops rest.
Proof.
  revert ds rest; induction s as [|c s IH]; simpl; intros ds rest H.
  - injection H as <- <-. repeat split.
  - destruct (is_digit c) eqn:Hc.
    + destruct (span_digits s) as [ds' rest'] eqn:E.
      injection H as <- <-. destruct (IH ds' rest' eq_refl) as [-> [Hd Hr]].
      rewrite app_String. simpl. rewrite Hc. repeat split; assumption.
    + injection H as <- <-. repeat split. exact Hc.
Qed.

Lemma strip_minus_spec s s' : strip_minus s = Some s' <-> s = String "-" s'.
Proof.
  destruct s as [|c s]; simpl; [split; discriminate|].
  destruct (Ascii.eqb_spec c "-") as [->|Hne]; split; congruence.
Qed.

Lemma signed_group_sound s g rest :
  signed_group s = Some (g, rest) ->
  s = g ++ rest /\ rendering g /\ stops rest.
Proof.
  unfold signed_group. destruct (strip_minus s) as [s'|] eqn:Hs.
  - apply strip_minus_spec in Hs as ->.
    destruct (span_digits s') as [ds r] eqn:E.
    apply span_digits_spec in E as [-> [Hd Hr]].
    destruct ds as [|c ds]; [discriminate|]. intros [= <- <-].
    repeat split; [|assumption]. now apply rendering_neg.
  - destruct (span_digits s) as [ds r] eqn:E.
    apply span_digits_spec in E as [-> [Hd Hr]].
    destruct ds as [|c ds]; [discriminate|]. intros [= <- <-].
    repeat split; [|assumption]. now apply rendering_pos.
Qed.

Lemma two_group_sound t g1 g2 :
  two_group t = Some (g1, g2) ->
  t = g1 ++ "-" ++ g2 /\ rendering g1 /\ rendering g2.
Proof.
  unfold two_group.
  destruct (signed_group t) as [[h1 after]|] eqn:E1; [|discriminate].
  apply signed_group_sound in E1 as [-> [Hr1 _]].
  destruct (strip_minus after) as [rest|] eqn:E2; [|discriminate].
  apply strip_minus_spec in E2 as ->.
  destruct (signed_group rest) as [[h2 tail]|] eqn:E3; [|discriminate].
  apply signed_group_sound in E3 as [-> [Hr2 _]].
  destruct tail; [|discriminate]. intros [= <- <-].
  rewrite app_empty_r. repeat split; assumption.
Qed.

(** The group [-?\d+] in terms of its language. *)
Lemma star_digit_bytes s : lang (Star Digit) s -> all_bytes is_digit s = true.
Proof. intros H. apply lang_reads in H. exact H. Qed.

Lemma rendering_iff g : rendering g <-> lang signed_pattern g.
Proof.
  split.
  - intros [ds Hds Hne | ds Hds Hne];
      (destruct ds as [|c ds]; [congruence|]);
      simpl in Hds; apply andb_true_iff in Hds as [Hc Hds];
      assert (Hplus : lang (Plus Digit) (String c ds))
        by (change (String c ds) with (String c "" ++ ds);
            constructor; [now constructor | now apply lang_star_digits]).
    + rewrite <- (app_empty_l (String c ds)).
      constructor; [apply L_AltR; constructor | exact Hplus].
    + change (String "-" (String c ds)) with ("-" ++ String c ds).
      constructor; [apply L_AltL; constructor | exact Hplus].
  - intros H. inversion H as [ | | | | | r1 r2 s1 s2 Hsign Hplus | | ]; subst.
    inversion Hplus as [ | | | | | r1 r2 u1 u2 Hd Hstar | | ]; subst.
    inversion Hd as [ | | c Hc | | | | | ]; subst.
    apply star_digit_bytes in Hstar.
    assert (Hds : all_bytes is_digit (String c "" ++ u2) = true)
      by (rewrite app_String, app_empty_l; simpl; now rewrite Hc).
    assert (Hne : String c "" ++ u2 <> "") by (rewrite app_String; discriminate).
    inversion Hsign as [ | | | r1 r2 s Hm | r1 r2 s He | | | ]; subst.
    + inversion Hm; subst. now apply rendering_neg.
    + inversion He; subst. rewrite app_empty_l. now apply rendering_pos.
Qed.

(** [two_group] returns the submatches of [^(-?\d+)-(-?\d+)$]: the text
    splits into two groups around a hyphen in one way at most, and the
    scanner finds it. *)
Lemma two_group_iff t g1 g2 :
  two_group t = Some (g1, g2) <->
  t = g1 ++ "-" ++ g2 /\ lang signed_pattern g1 /\ lang signed_pattern g2.
Proof.
  rewrite <- !rendering_iff. split.
  - apply two_group_sound.
  - intros [-> [H1 H2]]. now apply two_group_renderings.
Qed.

Lemma two_group_matches t :
  full_match two_group_pattern t = true <-> exists g1 g2, two_group t = Some (g1, g2).
Proof.
  rewrite full_match_iff. split.
  - intros H. inversion H as [ | | | | | r1 r2 s1 s2 H1 H2 | | ]; subst.
    inversion H2 as [ | | | | | r1 r2 u1 u2 Hsep H3 | | ]; subst.
    inversion Hsep; subst.
    exists s1, u2. apply two_group_iff. auto.
  - intros [g1 [g2 H]]. apply two_group_iff in H as [-> [H1 H2]].
    constructor; [assumption|]. constructor; [constructor | assumption].
Qed.

(** [single_group] returns the submatch of [^-?(\d+)$]. *)
Lemma single_group_sound t g3 :
  single_group t = Some g3 ->
  all_bytes is_digit g3 = true /\ g3 <> "" /\ (t = g3 \/ t = String "-" g3).
Proof.
  unfold single_group. destruct (strip_minus t) as [s'|] eqn:Hs.
  - apply strip_minus_spec in Hs as ->.
    destruct (span_digits s') as [ds r] eqn:E.
    apply span_digits_spec in E as [-> [Hd _]].
    destruct ds as [|c ds]; [discriminate|]. destruct r; [|discriminate].
    intros [= <-]. rewrite app_empty_r. repeat split; auto; discriminate.
  - destruct (span_digits t) as [ds r] eqn:E.
    apply span_digits_spec in E as [-> [Hd _]].
    destruct ds as [|c ds]; [discriminate|]. destruct r; [|discriminate].
    intros [= <-]. rewrite app_empty_r. repeat split; auto; discriminate.
Qed.

Lemma single_group_iff t g3 :
  single_group t = Some g3 <->
  all_bytes is_digit g3 = true /\ g3 <> "" /\ (t = g3 \/ t = String "-" g3).
Proof.
  split; [apply single_group_sound|].
  intros [Hd [Hne [-> | ->]]]; unfold single_group.
  - destruct g3 as [|c ds]; [congruence|].
    pose proof Hd as Hd'. simpl in Hd'. apply andb_true_iff in Hd' as [Hc _].
    cbn [strip_minus]. rewrite (digit_not_minus c Hc).
    pose proof (span_digits_app (String c ds) "" Hd I) as E.
    rewrite app_empty_r in E. now rewrite E.
  - cbn [strip_minus]. rewrite Ascii.eqb_refl.
    pose proof (span_digits_app g3 "" Hd I) as E.
    rewrite app_empty_r in E. rewrite E.
    destruct g3; [congruence | reflexivity].
Qed.

Lemma single_group_matches t :
  full_match single_pattern t = true <-> exists g3, single_group t = Some g3.
Proof.
  rewrite full_match_iff. change single_pattern with signed_pattern.
  rewrite <- rendering_iff. split.
  - intros [ds Hds Hne | ds Hds Hne]; exists ds; apply single_group_iff; auto.
  - intros [g3 H]. apply single_group_sound in H as [Hd [Hne [-> | ->]]].
    + now apply rendering_pos.
    + now apply rendering_neg.
Qed.

(** A term with more than one hyphen is not a single year. *)
Lemma single_group_hyphens t :
  (1 < CountByte t "-")%nat -> single_group t = None.
Proof.
  intros Hc. destruct (single_group t) as [g3|] eqn:E; [|reflexivity].
  apply single_group_sound in E as [Hd [_ [-> | ->]]].
  - rewrite CountByte_digits in Hc by assumption. lia.
  - simpl in Hc. rewrite CountByte_digits in Hc by assumption. lia.
Qed.

(** [extractRange] case by case, in terms of its pattern: the two groups
    when the first alternative matches, the digits of the single year when
    the second does, and two empty strings otherwise. *)
Lemma extractRange_cases t :
  (exists g1 g2, t = g1 ++ "-" ++ g2 /\ lang signed_pattern g1 /\
                 lang signed_pattern g2 /\ extractRange t = (g1, g2)) \/
  (full_match two_group_pattern t = false /\
   exists g3, single_group t = Some g3 /\ extractRange t = (g3, "")) \/
  (full_match two_group_pattern t = false /\
   full_match single_pattern t = false /\ extractRange t = ("", "")).
Proof.
  unfold extractRange.
  destruct (two_group t) as [[g1 g2]|] eqn:E2.
  - left. exists g1, g2. pose proof E2 as Hs.
    apply two_group_iff in E2 as [-> [H1 H2]].
    apply two_group_sound in Hs as [_ [R1 R2]].
    apply rendering_nonempty in R1, R2. apply String.eqb_neq in R1, R2.
    rewrite R1, R2. auto.
  - assert (Hno : full_match two_group_pattern t = false).
    { destruct (full_match two_group_pattern t) eqn:E; [|reflexivity].
      apply two_group_matches in E as [g1 [g2 E]]. congruence. }
    right. destruct (single_group t) as [g3|] eqn:E1.
    + left. split; [assumption|]. exists g3. split; [reflexivity|].
      apply single_group_sound in E1 as [_ [Hne _]].
      apply String.eqb_neq in Hne. now rewrite Hne.
    + right. repeat split; trivial.
      destruct (full_match single_pattern t) eqn:E; [|reflexivity].
      apply single_group_matches in E as [g3 E]. congruence.
Qed.

End Groups.

(* ===================================================================== *)
(** * C8: terms with several hyphens outside the two-group grammar *)
(* ===================================================================== *)

(** C8 (as the code has it). For every term with more than one hyphen
    that does not match the two-group grammar [(-?digits)-(-?digits)],
    [extractRange] returns two empty strings: the condition stays a range,
    [BETWEEN '' AND ''], and selects no year. *)
Theorem byYear_unmatched_range_selects_nothing (t : string) :
  (1 < CountByte t "-")%nat ->
  full_match two_group_pattern t = false ->
  extractRange t = ("", "") /\
  yearCond t = YearBetween "" "" /\
  forall y, yearSelected t y = false.
Proof.
  intros Hc Hno.
  assert (H2 : two_group t = None).
  { destruct (two_group t) as [[g1 g2]|] eqn:E; [|reflexivity].
    assert (full_match two_group_pattern t = true)
      by (apply two_group_matches; eauto).
    congruence. }
  assert (Hx : extractRange t = ("", "")).
  { unfold extractRange. now rewrite H2, single_group_hyphens. }
  assert (Hy : yearCond t = YearBetween "" "").
  { unfold yearCond. apply Nat.ltb_lt in Hc as Hlt. rewrite Hlt, Hx.
    destruct (CountByte t "-" =? 1)%nat eqn:E1; [|reflexivity].
    apply Nat.eqb_eq in E1. lia. }
  repeat split; trivial.
  intros y. unfold yearSelected. rewrite Hy. reflexivity.
Qed.

Lemma byYear_unmatched_range_selects_nothing_witness :
  extractRange "-5-" = ("", "") /\
  yearCond "-5-" = YearBetween "" "" /\
  forall y, yearSelected "-5-" y = false.
Proof.
  apply (byYear_unmatched_range_selects_nothing "-5-").
  - vm_compute. lia.
  - reflexivity.
Defined.

(** C8, as stated, fails: the year-like term "-5-" has two hyphens and is
    outside the two-group grammar, and its condition is a range that
    selects no year, so it is not the exact match of any single year. *)
Lemma byYear_unmatched_range_not_single_year :
  isNumberLike "-5-" = true /\
  (1 < CountByte "-5-" "-")%nat /\
  full_match two_group_pattern "-5-" = false /\
  yearCond "-5-" = YearBetween "" "" /\
  ~ exists z, forall y, yearSelected "-5-" y = true <-> y = z.
Proof.
  repeat split; try reflexivity.
  - vm_compute. lia.
  - intros [z Hz]. specialize (Hz z).
    assert (Hsel : yearSelected "-5-" z = false) by reflexivity.
    rewrite Hsel in Hz. destruct Hz as [_ Hz]. discriminate (Hz eq_refl).
Qed.

(* ===================================================================== *)
(** * C7: the year anchor and the residual terms *)
(* ===================================================================== *)

Section Classify.


Lemma criteriaTerms_first pre anchor post :
  Forall (fun t => isNumberLike t = false) pre ->
  isNumberLike anchor = true ->
  criteriaTerms (pre ++ anchor :: post)%list = anchor :: criteriaTerms post.
Proof.
  unfold criteriaTerms. induction 1 as [|t pre Ht _ IH]; simpl; intros Ha.
  - now rewrite Ha.
  - rewrite Ht. auto.
Qed.

Lemma searchTermsWN_keeps pre anchor :
  Forall (fun t => isNumberLike t = false) pre ->
  isNumberLike anchor = true ->
  searchTermsWN pre anchor = pre.
Proof.
  unfold searchTermsWN. induction 1 as [|t pre Ht _ IH]; simpl; intros Ha; [trivial|].
  destruct (String.eqb_spec t anchor) as [->|_]; [congruence|].
  simpl. now rewrite IH.
Qed.

Lemma searchTermsWN_app a b anchor :
  searchTermsWN (a ++ b)%list anchor =
  (searchTermsWN a anchor ++ searchTermsWN b anchor)%list.
Proof. unfold searchTermsWN. apply List.filter_app. Qed.

Lemma searchTermsWN_absent post anchor :
  ~ In anchor post -> searchTermsWN post anchor = post.
Proof.
  unfold searchTermsWN. induction post as [|t post IH]; simpl; intros H; [trivial|].
  destruct (String.eqb_spec t anchor) as [->|_]; [tauto|].
  simpl. rewrite IH; tauto.
Qed.

Lemma spec_residual_first pre anchor post :
  Forall (fun t => isNumberLike t = false) pre ->
  isNumberLike anchor = true ->
  spec_residual (pre ++ anchor :: post)%list = (pre ++ post)%list.
Proof.
  induction 1 as [|t pre Ht _ IH]; simpl; intros Ha.
  - now rewrite Ha.
  - rewrite Ht. now rewrite IH.
Qed.



End Classify.

(** C7 (as the code has it). The year anchor is the first year-like token
    in original order, and the residual terms are the tokens different
    from the anchor's text, in order: the tokens before the anchor all
    stay, and of those after it every repetition of the anchor's text is
    dropped with it.  When the anchor's text does not occur again, the
    residual terms are exactly all the other tokens. *)
Theorem classify_anchor_residual (pre post : list string) (anchor : string) :
  Forall (fun t => isNumberLike t = false) pre ->
  isNumberLike anchor = true ->
  classify (pre ++ anchor :: post)%list =
    Some (anchor, (pre ++ searchTermsWN post anchor)%list) /\
  (~ In anchor post ->
   classify (pre ++ anchor :: post)%list =
     Some (anchor, spec_residual (pre ++ anchor :: post)%list)).
Proof.
  intros Hpre Ha.
  assert (Hc : classify (pre ++ anchor :: post)%list =
               Some (anchor, (pre ++ searchTermsWN post anchor)%list)).
  { unfold classify. rewrite criteriaTerms_first by assumption.
    rewrite searchTermsWN_app, searchTermsWN_keeps by assumption.
    do 3 f_equal. unfold searchTermsWN. simpl.
    now rewrite String.eqb_refl. }
  split; [exact Hc|].
  intros Hnot. rewrite Hc, spec_residual_first by assumption.
  now rewrite searchTermsWN_absent.
Qed.

Lemma classify_anchor_residual_witness :
  classify ["france"; "1789"; "king"] = Some ("1789", ["france"; "king"]).
Proof.
  refine (proj1 (classify_anchor_residual ["france"] ["king"] "1789" _ _)).
  - repeat constructor.
  - reflexivity.
Defined.

(** C7, as stated, fails: in the query "1789 1789 france" the anchor is
    the first "1789", and the second "1789" is dropped from the residual
    terms as well. *)
Lemma classify_drops_repeated_anchor :
  classify (Fields "1789 1789 france") = Some ("1789", ["france"]) /\
  spec_residual (Fields "1789 1789 france") = ["1789"; "france"] /\
  classify (Fields "1789 1789 france") <>
    Some ("1789", spec_residual (Fields "1789 1789 france")).
Proof. repeat split; discriminate. Qed.

(* ===================================================================== *)
(** * C2: the lineage window *)
(* ===================================================================== *)

Section Lineage.

Lemma findCurrent_list_find rows i myRulerID myProg :
  findCurrent rows i myRulerID myProg =
  match list_find (fun r => RulerRow.RulerID r = myRulerID /\
                            RulerRow.ProgrTitle r = myProg) rows with
  | Some (j, _) => i + Z.of_nat j
  | None => -1
  end.
Proof.
  revert i; induction rows as [|r rows IH]; intros i; [reflexivity|].
  cbn [findCurrent list_find].
  destruct (Z.eqb_spec (RulerRow.RulerID r) myRulerID) as [H1|H1];
    destruct (Z.eqb_spec (RulerRow.ProgrTitle r) myProg) as [H2|H2]; simpl;
    (destruct (decide _) as [Hd|Hd]; [try tauto | try tauto]);
    try (f_equal; lia).
  all: rewrite IH;
    destruct (list_find _ rows) as [[j x]|]; simpl; [lia | reflexivity].
Qed.

(** The first index of the window, counted from 0, is the first position
    of the specification's window, counted from 1, less one. *)
Lemma lineageStart_spec rows myRulerID myProg :
  Z.to_nat (lineageStart rows myRulerID myProg) =
  (Nat.max 1 (spec_focal rows myRulerID myProg - 3) - 1)%nat.
Proof.
  unfold lineageStart, spec_focal. rewrite findCurrent_list_find.
  destruct (list_find _ rows) as [[j x]|]; [|reflexivity].
  destruct (Z.eqb_spec (0 + Z.of_nat j) (-1)) as [H|_]; [lia|].
  destruct (Z.ltb_spec (0 + Z.of_nat j - 3) 0); lia.
Qed.

Lemma lineageLoop_drop rows i :
  lineageLoop rows i (length rows - i) = drop i rows.
Proof.
  remember (length rows - i)%nat as n eqn:Hn.
  revert i Hn; induction n as [|n IH]; intros i Hn; simpl.
  - symmetry. apply drop_ge. lia.
  - destruct (rows !! i) as [r|] eqn:Hr.
    + rewrite IH by lia. symmetry. now apply drop_S.
    + apply lookup_ge_None in Hr. lia.
Qed.

(** The rows shown are the window of the specification. *)
Lemma lineageWindow_spec rows myRulerID myProg :
  lineageWindow rows myRulerID myProg =
  spec_window rows (spec_focal rows myRulerID myProg).
Proof.
  unfold lineageWindow, spec_window.
  now rewrite lineageLoop_drop, lineageStart_spec.
Qed.

(** [ORDER BY] sorts, and keeps the rows. *)
Lemma insertByProg_perm r rows : insertByProg r rows ≡ₚ r :: rows.
Proof.
  induction rows as [|x rows IH]; simpl; [reflexivity|].
  destruct (RulerRow.ProgrTitle r <=? RulerRow.ProgrTitle x); [reflexivity|].
  rewrite IH. apply perm_swap.
Qed.

Lemma orderByProg_perm rows : orderByProg rows ≡ₚ rows.
Proof.
  induction rows as [|r rows IH]; simpl; [reflexivity|].
  now rewrite insertByProg_perm, IH.
Qed.




Lemma orderByProg_nil rows : orderByProg rows = [] -> rows = [].
Proof.
  intros H. pose proof (orderByProg_perm rows) as Hp. rewrite H in Hp.
  now apply Permutation_nil_l in Hp.
Qed.

(** The first query succeeds exactly when the focal ruler has a period
    under the title. *)
Lemma progQuery_some table rulerID title :
  (exists r, r ∈ table /\ RulerRow.RulerID r = rulerID /\
             RulerRow.Title r = title) <->
  exists prog, progQuery table rulerID title = Some prog.
Proof.
  unfold progQuery.
  set (P := fun r => RulerRow.RulerID r = rulerID /\ RulerRow.Title r = title).
  split.
  - intros [r [Hin Hr]].
    destruct (orderByProg (filter P table)) as [|x xs] eqn:E; [|eauto].
    apply orderByProg_nil in E.
    assert (Hf : r ∈ filter P table) by (apply list_elem_of_filter; split; assumption).
    rewrite E in Hf. inversion Hf.
  - intros [prog H].
    destruct (orderByProg (filter P table)) as [|x xs] eqn:E; [discriminate|].
    assert (Hx : x ∈ filter P table).
    { rewrite <- (orderByProg_perm (filter P table)), E. left. }
    apply list_elem_of_filter in Hx as [Hx Hin]. exists x. split; assumption.
Qed.

End Lineage.




(* ===================================================================== *)
(** * C3: unified counters over the merged batch *)
(* ===================================================================== *)

Section Counters.

Lemma addUnifiedCounters_counted hits : counted hits (addUnifiedCounters hits).
Proof.
  unfold counted, addUnifiedCounters. split; [apply length_imap|].
  intros i hit Hi. rewrite list_lookup_imap, Hi. simpl.
  unfold withCounter, counterString.
  replace (Z.of_nat (S i)) with (Z.of_nat i + 1) by lia.
  destruct (String.eqb (AlfredItem.Subtitle hit) ""); reflexivity.
Qed.

Lemma orPlaceholder_nonempty guard q items :
  items <> [] -> orPlaceholder guard q items = items.
Proof.
  unfold orPlaceholder. destruct items; [congruence|].
  now rewrite andb_false_r.
Qed.

Lemma addUnifiedCounters_nonempty hits :
  hits <> [] -> addUnifiedCounters hits <> [].
Proof.
  intros H E. apply (f_equal length) in E.
  unfold addUnifiedCounters in E. rewrite length_imap in E.
  destruct hits; [congruence | discriminate].
Qed.

(** Below a thousand the separators of [formatNumber] do not show. *)
Lemma formatNumber_small n : 0 <= n < 1000 -> formatNumber n = Itoa n.
Proof.
  intros Hn.
  assert (Hall : forallb (fun k => String.eqb (formatNumber (Z.of_nat k))
                                              (Itoa (Z.of_nat k)))
                         (seq 0 1000) = true) by (vm_compute; reflexivity).
  rewrite forallb_forall in Hall.
  specialize (Hall (Z.to_nat n)).
  rewrite Z2Nat.id in Hall by lia. apply String.eqb_eq, Hall.
  apply in_seq. lia.
Qed.

Lemma counterString_small i total :
  (i <= total < 1000)%nat -> counterString i total = spec_counter i total.
Proof.
  intros H. unfold counterString, spec_counter.
  rewrite !formatNumber_small by lia. reflexivity.
Qed.

End Counters.

(** C3 (as the code has it). For every merged batch of [M > 0] hits of a
    by-name or by-year search with events enabled, the batch lists the
    ruler items before the event items, and the [i]-th item (from 1)
    carries, in front of its subtitle, the counter made of [i] and [M] as
    [formatNumber] renders them, over the combined sequence; below a
    thousand hits that counter is ["i/M"]. *)
Theorem merged_batch_counted (store : Store.t) (searchTerms : list string)
    (yearTerm : string) (config : Config.t) (input : string) :
  Config.ShowEvents config = true ->
  (let rulers := Store.rulerItemsByName store searchTerms input in
   let events := map (eventItem input) (Store.eventsByName store searchTerms) in
   (rulers ++ events)%list <> [] ->
   counted (rulers ++ events)%list
           (AlfredResult.Items (byNameWithEvents store searchTerms input))) /\
  (let rulers := map (yearRulerItem (Store.iconExists store) config yearTerm input)
                     (Store.rulersByYear store (yearCond yearTerm) searchTerms) in
   let events := map (yearEventItem yearTerm input)
                     (Store.eventsByYear store (yearCond yearTerm) searchTerms) in
   (rulers ++ events)%list <> [] ->
   counted (rulers ++ events)%list
           (AlfredResult.Items (byYear store searchTerms yearTerm config input))) /\
  (forall i M : nat, (i <= M < 1000)%nat -> counterString i M = spec_counter i M).
Proof.
  intros Hev. split; [|split].
  - intros rulers events Hne. unfold byNameWithEvents, byNameHits. simpl.
    fold rulers events.
    rewrite orPlaceholder_nonempty by now apply addUnifiedCounters_nonempty.
    apply addUnifiedCounters_counted.
  - intros rulers events Hne. unfold byYear, byYearHits. simpl.
    rewrite Hev. fold rulers events.
    rewrite orPlaceholder_nonempty by now apply addUnifiedCounters_nonempty.
    apply addUnifiedCounters_counted.
  - apply counterString_small.
Qed.

Lemma merged_batch_counted_witness :
  counted (map (eventItem "bastille") (replicate 2 sample_event))
          (AlfredResult.Items
             (byNameWithEvents (sample_store 2) ["bastille"] "bastille")).
Proof.
  refine (proj1 (merged_batch_counted (sample_store 2) ["bastille"] "1789"
                   (sample_search true) "bastille" eq_refl) _).
  discriminate.
Defined.

(** C3, as stated, fails: in a batch of a thousand hits the first item
    carries "1/1,000", not "1/1000". *)
Lemma merged_batch_counter_thousand :
  let batch := AlfredResult.Items
                 (byNameWithEvents (sample_store 1000) ["bastille"] "bastille") in
  length batch = 1000%nat /\
  AlfredItem.Subtitle <$> batch !! 0%nat = Some "1/1,000" /\
  spec_counter 1 1000 = "1/1000" /\
  AlfredItem.Subtitle <$> batch !! 0%nat <> Some (spec_counter 1 1000).
Proof.
  assert (H : AlfredItem.Subtitle <$>
              AlfredResult.Items
                (byNameWithEvents (sample_store 1000) ["bastille"] "bastille")
                !! 0%nat = Some "1/1,000") by (vm_compute; reflexivity).
  cbv zeta. rewrite H.
  split; [vm_compute; reflexivity|].
  split; [reflexivity|].
  split; [vm_compute; reflexivity | discriminate].
Qed.

(* ===================================================================== *)
(** * C9: the placeholder of a search without results *)
(* ===================================================================== *)

Section Placeholder.

(** The placeholder: fixed headline and subtitle, an invalid primary
    action, and one modifier, which goes back to the original query and
    clears the lineage variables. *)
Lemma noResultsItem_shape (q : string) :
  let item := noResultsItem q in
  AlfredItem.Title item = "No results here 🫤" /\
  AlfredItem.Subtitle item = "Try a different query" /\
  AlfredItem.Valid item = false /\
  AlfredItem.Arg item = "" /\
  (forall k m, AlfredItem.Mods item !! k = Some m ->
               k = "cmd+alt" /\ m = goBackMod q) /\
  AlfredItem.Mods item !! "cmd+alt" = Some (goBackMod q) /\
  AlfredMod.Valid (goBackMod q) = true /\
  AlfredMod.Arg (goBackMod q) = q /\
  AlfredMod.Variables (goBackMod q) !! "mySource" = Some "" /\
  AlfredMod.Variables (goBackMod q) !! "myRulerID" = Some "" /\
  AlfredMod.Variables (goBackMod q) !! "mytitleProg" = Some "" /\
  AlfredMod.Variables (goBackMod q) !! "myTitle" = Some "" /\
  AlfredMod.Variables (goBackMod q) !! "restoredQuery" = Some q.
Proof.
  cbv zeta. repeat split; try reflexivity.
  - unfold noResultsItem, mods in H. simpl in H.
    rewrite insert_empty in H. apply lookup_singleton_Some in H. symmetry. tauto.
  - unfold noResultsItem, mods in H. simpl in H.
    rewrite insert_empty in H. apply lookup_singleton_Some in H. symmetry. tauto.
Qed.

(** Both searches that print the placeholder print it alone, when there
    is no hit. *)
Lemma byNameWithEvents_no_hits store searchTerms input :
  byNameHits store searchTerms input = [] ->
  byNameWithEvents store searchTerms input =
  AlfredResult.mk [noResultsItem input].
Proof. unfold byNameWithEvents. now intros ->. Qed.

Lemma byYear_no_hits store searchTerms yearTerm config originalQuery :
  yearTerm <> "" ->
  byYearHits store searchTerms yearTerm config originalQuery = [] ->
  byYear store searchTerms yearTerm config originalQuery =
  AlfredResult.mk [noResultsItem originalQuery].
Proof.
  intros Hne Hhits. unfold byYear. rewrite Hhits.
  apply String.eqb_neq in Hne. unfold orPlaceholder. now rewrite Hne.
Qed.

(** The terms of a query are never empty, so the guard of [byYear] on the
    year term always holds. *)
Lemma rev_app_nonempty s acc : acc <> "" -> String.rev_app s acc <> "".
Proof.
  revert acc; induction s as [|c s IH]; intros acc H; simpl; [assumption|].
  apply IH. discriminate.
Qed.

Lemma rev_nonempty s : s <> "" -> String.rev s <> "".
Proof.
  destruct s as [|c s]; [congruence|]. intros _.
  unfold String.rev. simpl. apply rev_app_nonempty. discriminate.
Qed.

Lemma fields_go_nonempty s : forall cur,
  Forall (fun term => term <> "") (fields_go s cur).
Proof.
  induction s as [|c s IH]; intros cur; simpl.
  - destruct cur; constructor; [|constructor]. apply rev_nonempty. discriminate.
  - destruct (is_space c); [|apply IH].
    destruct cur; [apply IH|]. constructor; [|apply IH].
    apply rev_nonempty. discriminate.
Qed.

Lemma classify_anchor_nonempty input anchor residual :
  classify (Fields input) = Some (anchor, residual) -> anchor <> "".
Proof.
  unfold classify, criteriaTerms.
  destruct (List.filter isNumberLike (Fields input)) as [|t ts] eqn:E; [discriminate|].
  intros [= <- _].
  assert (Hin : In t (List.filter isNumberLike (Fields input))) by (rewrite E; now left).
  apply List.filter_In in Hin as [Hin _].
  pose proof (fields_go_nonempty input "") as Hall.
  rewrite Forall_forall in Hall. apply Hall. now apply list_elem_of_In.
Qed.

(** From [main]: a query with a year anchor, or a query by name with
    events enabled, that has no hit prints the placeholder alone. *)
Lemma search_by_year_no_hits store config input anchor residual :
  classify (Fields input) = Some (anchor, residual) ->
  byYearHits store residual anchor config input = [] ->
  search store config input = Some (AlfredResult.mk [noResultsItem input]).
Proof.
  intros Hc Hhits. unfold search. rewrite Hc. f_equal.
  apply byYear_no_hits; [|assumption].
  eapply classify_anchor_nonempty, Hc.
Qed.

Lemma search_by_name_no_hits store config input :
  Config.ShowEvents config = true ->
  classify (Fields input) = None ->
  byNameHits store (Fields input) input = [] ->
  search store config input = Some (AlfredResult.mk [noResultsItem input]).
Proof.
  intros Hev Hc Hhits. unfold search. rewrite Hc, Hev. f_equal.
  now apply byNameWithEvents_no_hits.
Qed.

(** The by-name search without events prints no batch at all. *)
Lemma search_without_events store config input :
  Config.ShowEvents config = false ->
  classify (Fields input) = None ->
  search store config input = None.
Proof. unfold search. now intros -> ->. Qed.

End Placeholder.

(** C9. With events disabled, the query "caesar" carries one term and
    produces no hit on any store, and no batch is printed: there is no
    placeholder item.  (With events enabled, or with a year anchor, the
    placeholder is printed alone: [search_by_name_no_hits],
    [search_by_year_no_hits], [noResultsItem_shape].) *)
Theorem main_by_name_without_events_prints_nothing (store : Store.t) :
  Fields "caesar" = ["caesar"] /\
  main store (sample_search false) (Some "caesar") "" "" = None /\
  (Store.rulerItemsByName store ["caesar"] "caesar" = [] ->
   Store.eventsByName store ["caesar"] = [] ->
   main store (sample_search true) (Some "caesar") "" "" =
   Some (AlfredResult.mk [noResultsItem "caesar"])).
Proof.
  split; [reflexivity|]. split; [reflexivity|].
  intros Hr He.
  change (main store (sample_search true) (Some "caesar") "" "")
    with (Some (byNameWithEvents store ["caesar"] "caesar")).
  rewrite byNameWithEvents_no_hits; [reflexivity|].
  unfold byNameHits. now rewrite Hr, He.
Qed.

(* ===================================================================== *)
(** * C5: title groups in order of rank *)
(* ===================================================================== *)

Section Sorting.

Local Open Scope list_scope.

Implicit Types (x y : TitleGroup.t) (pre mid rest l : list TitleGroup.t).

(** One exchange, on a slice with the two positions made explicit. *)
Lemma exchange_middle pre x mid y rest :
  exchange (length pre) (length pre + 1 + length mid)
           (pre ++ x :: mid ++ y :: rest) =
  if TitleGroup.Rank y <? TitleGroup.Rank x
  then pre ++ y :: mid ++ x :: rest
  else pre ++ x :: mid ++ y :: rest.
Proof.
  unfold exchange.
  rewrite (list_lookup_middle pre (mid ++ y :: rest) x) by reflexivity.
  replace (pre ++ x :: mid ++ y :: rest)
    with ((pre ++ x :: mid) ++ y :: rest) at 1
    by now rewrite <- app_assoc.
  rewrite (list_lookup_middle (pre ++ x :: mid) rest y)
    by (rewrite length_app; simpl; lia).
  destruct (TitleGroup.Rank y <? TitleGroup.Rank x); [|reflexivity].
  rewrite (insert_app_r_alt pre) by lia.
  rewrite Nat.sub_diag. cbn [insert list_insert].
  rewrite (insert_app_r_alt pre) by lia.
  replace (length pre + 1 + length mid - length pre)%nat with (S (length mid)) by lia.
  cbn [insert list_insert]. do 2 f_equal.
  change (list_insert (length mid) x (mid ++ y :: rest))
    with (<[length mid := x]> (mid ++ y :: rest)).
  rewrite (insert_app_r_alt mid) by lia.
  now rewrite Nat.sub_diag.
Qed.

(** The inner loop is one pass. *)
Lemma sort_inner_pass rest : forall pre x mid i j,
  i = length pre -> j = (i + 1 + length mid)%nat ->
  sort_inner i j (length rest) (pre ++ x :: mid ++ rest) =
  pre ++ fst (pass x rest) :: mid ++ snd (pass x rest).
Proof.
  induction rest as [|y r IH]; intros pre x mid i j -> ->; [reflexivity|].
  cbn [length sort_inner]. rewrite exchange_middle. cbn [pass].
  destruct (TitleGroup.Rank y <? TitleGroup.Rank x).
  - replace (pre ++ y :: mid ++ x :: r) with (pre ++ y :: (mid ++ [x]) ++ r)
      by now rewrite <- app_assoc.
    rewrite (IH pre y (mid ++ [x]) (length pre)) by (rewrite ?length_app; simpl; lia).
    destruct (pass y r) as [m r']. simpl. now rewrite <- app_assoc.
  - replace (pre ++ x :: mid ++ y :: r) with (pre ++ x :: (mid ++ [y]) ++ r)
      by now rewrite <- app_assoc.
    rewrite (IH pre x (mid ++ [y]) (length pre)) by (rewrite ?length_app; simpl; lia).
    destruct (pass x r) as [m r']. simpl. now rewrite <- app_assoc.
Qed.

(** Name the result of the pass that starts with [x] and bring the
    induction hypothesis to it. *)
Ltac on_pass IH x r :=
  let m := fresh "m" in
  let r' := fresh "r'" in
  specialize (IH x); destruct (pass x r) as [m r']; simpl in *.

Lemma pass_length x rest : length (snd (pass x rest)) = length rest.
Proof.
  revert x; induction rest as [|y r IH]; intros x; simpl; [reflexivity|].
  destruct (TitleGroup.Rank y <? TitleGroup.Rank x);
    [on_pass IH y r | on_pass IH x r]; now rewrite IH.
Qed.

(** The outer loop is a sequence of passes. *)
Lemma sort_outer_passes n : forall pre l i,
  n = length l -> i = length pre ->
  sort_outer i n (pre ++ l) = pre ++ passes n l.
Proof.
  induction n as [|n IH]; intros pre l i Hn ->; [reflexivity|].
  destruct l as [|x rest]; [discriminate|]. simpl in Hn.
  cbn [sort_outer passes].
  replace (length (pre ++ x :: rest) - S (length pre))%nat with (length rest)
    by (rewrite length_app; simpl; lia).
  pose proof (sort_inner_pass rest pre x [] (length pre) (S (length pre))
                eq_refl ltac:(simpl; lia)) as Hinner.
  cbn [app] in Hinner. rewrite Hinner. clear Hinner.
  pose proof (pass_length x rest) as Hlen.
  destruct (pass x rest) as [m r']. simpl in *.
  replace (pre ++ m :: r') with ((pre ++ [m]) ++ r') by now rewrite <- app_assoc.
  rewrite (IH (pre ++ [m]) r' (S (length pre)))
    by (rewrite ?length_app; simpl; lia).
  now rewrite <- app_assoc.
Qed.

Lemma sortByRank_passes l : sortByRank l = passes (length l) l.
Proof. unfold sortByRank. now apply (sort_outer_passes (length l) [] l 0%nat). Qed.

(** A pass keeps the entries and leaves one of least rank in front. *)
Lemma pass_perm x rest : fst (pass x rest) :: snd (pass x rest) ≡ₚ x :: rest.
Proof.
  revert x; induction rest as [|y r IH]; intros x; simpl; [reflexivity|].
  destruct (TitleGroup.Rank y <? TitleGroup.Rank x).
  - on_pass IH y r.
    etrans; [apply perm_swap|]. now apply perm_skip.
  - on_pass IH x r.
    etrans; [apply perm_swap|]. etrans; [apply perm_skip, IH|]. apply perm_swap.
Qed.

Lemma pass_least x rest :
  TitleGroup.Rank (fst (pass x rest)) <= TitleGroup.Rank x /\
  Forall (fun y => TitleGroup.Rank (fst (pass x rest)) <= TitleGroup.Rank y)
         (snd (pass x rest)).
Proof.
  revert x; induction rest as [|y r IH]; intros x; simpl.
  - split; [lia | constructor].
  - destruct (Z.ltb_spec (TitleGroup.Rank y) (TitleGroup.Rank x)) as [Hlt|Hge].
    + on_pass IH y r.
      destruct IH as [Hm Hall]. split; [lia|]. constructor; [lia | assumption].
    + on_pass IH x r.
      destruct IH as [Hm Hall]. split; [lia|]. constructor; [lia | assumption].
Qed.

Lemma passes_perm n : forall l, passes n l ≡ₚ l.
Proof.
  induction n as [|n IH]; intros l; [reflexivity|].
  destruct l as [|x rest]; [reflexivity|]. cbn [passes].
  pose proof (pass_perm x rest) as Hp.
  destruct (pass x rest) as [m r']. simpl in Hp.
  now rewrite IH.
Qed.

Lemma passes_ranked n : forall l, n = length l -> ranked (passes n l).
Proof.
  unfold ranked.
  induction n as [|n IH]; intros l Hn.
  - destruct l; [constructor | discriminate].
  - destruct l as [|x rest]; [discriminate|]. cbn [passes].
    pose proof (pass_least x rest) as [_ Hall].
    pose proof (pass_length x rest) as Hlen.
    destruct (pass x rest) as [m r']. simpl in *.
    constructor; [apply IH; lia|].
    now rewrite (passes_perm n r').
Qed.

(** The sort of [formatSubtitle] sorts. *)
Lemma sortByRank_perm l : sortByRank l ≡ₚ l.
Proof. rewrite sortByRank_passes. apply passes_perm. Qed.

Lemma sortByRank_ranked l : ranked (sortByRank l).
Proof. rewrite sortByRank_passes. now apply passes_ranked. Qed.

(** In a ranked list a lower rank comes first. *)
Lemma ranked_before l i j a b :
  ranked l -> l !! i = Some a -> l !! j = Some b ->
  TitleGroup.Rank a < TitleGroup.Rank b -> (i < j)%nat.
Proof.
  unfold ranked. intros Hs. revert i j.
  induction Hs as [|x l Hs IH Hx]; intros i j Ha Hb Hlt; [discriminate|].
  destruct i as [|i], j as [|j]; simpl in *.
  - injection Ha as ->. injection Hb as ->. lia.
  - lia.
  - injection Hb as ->. apply list_elem_of_lookup_2 in Ha.
    rewrite Forall_forall in Hx. specialize (Hx a Ha). lia.
  - specialize (IH i j Ha Hb Hlt). lia.
Qed.

(** The map of title groups holds, for each title of a period, the
    periods of that title in their order. *)
Lemma groupByTitle_fold periods : forall (m : gmap string (list PeriodInfo.t)) title,
  foldl (fun m period =>
           <[PeriodInfo.Title period :=
               default [] (m !! PeriodInfo.Title period) ++ [period]]> m)
        m periods !! title =
  match filter (fun p => PeriodInfo.Title p = title) periods with
  | [] => m !! title
  | ps => Some (default [] (m !! title) ++ ps)
  end.
Proof.
  induction periods as [|p periods IH]; intros m title; [reflexivity|].
  cbn [foldl]. rewrite IH. rewrite filter_cons.
  destruct (decide (PeriodInfo.Title p = title)) as [->|Hne].
  - rewrite lookup_insert_eq. simpl.
    destruct (filter _ periods) as [|q qs]; [reflexivity|].
    now rewrite <- app_assoc.
  - now rewrite lookup_insert_ne by assumption.
Qed.

Lemma groupByTitle_lookup periods title :
  groupByTitle periods !! title =
  match filter (fun p => PeriodInfo.Title p = title) periods with
  | [] => None
  | ps => Some ps
  end.
Proof.
  unfold groupByTitle. rewrite groupByTitle_fold, lookup_empty.
  now destruct (filter _ periods).
Qed.

(** The groups built from any iteration over the map are the groups of
    the titles of the periods. *)
Lemma makeTitleGroups_elem periods iter g :
  iter ≡ₚ map_to_list (groupByTitle periods) ->
  g ∈ makeTitleGroups iter <->
  exists p, p ∈ periods /\ g = groupOf periods (PeriodInfo.Title p).
Proof.
  intros Hperm. unfold makeTitleGroups.
  rewrite list_elem_of_fmap. split.
  - intros [[title ps] [-> Hin]]. rewrite Hperm in Hin.
    apply elem_of_map_to_list in Hin. rewrite groupByTitle_lookup in Hin.
    destruct (filter _ periods) as [|q qs] eqn:E; [discriminate|].
    injection Hin as <-.
    assert (Hq : q ∈ filter (fun p => PeriodInfo.Title p = title) periods)
      by (rewrite E; left).
    apply list_elem_of_filter in Hq as [Hq Hin]. exists q. split; [assumption|].
    unfold groupOf. now rewrite Hq, E.
  - intros [p [Hin ->]].
    exists (PeriodInfo.Title p,
            filter (fun q => PeriodInfo.Title q = PeriodInfo.Title p) periods).
    split; [reflexivity|]. rewrite Hperm.
    apply elem_of_map_to_list. rewrite groupByTitle_lookup.
    assert (Hp : p ∈ filter (fun q => PeriodInfo.Title q = PeriodInfo.Title p) periods)
      by (apply list_elem_of_filter; split; [reflexivity | assumption]).
    destruct (filter _ periods); [inversion Hp | reflexivity].
Qed.

End Sorting.

(** C5 (as the code has it). For every ruler and every subtitle
    [formatSubtitle] can return, the subtitle lists the ruler's title
    groups, each once and with its periods in their order, in ascending
    order of priority rank: a group of lower rank always comes before a
    group of higher rank, so "King" (rank 10) comes before "Pope"
    (rank 55).  The order of groups of equal rank is not fixed. *)
Theorem formatSubtitle_ranked (periods : list PeriodInfo.t)
    (personalName : NullString) (out : string) :
  formatSubtitle periods personalName out ->
  exists groups : list TitleGroup.t,
    out = subtitleOf groups personalName /\
    NoDup (map TitleGroup.Title groups) /\
    (forall g, g ∈ groups <->
               exists p, p ∈ periods /\ g = groupOf periods (PeriodInfo.Title p)) /\
    ranked groups /\
    (forall (i j : nat) a b,
        groups !! i = Some a -> groups !! j = Some b ->
        TitleGroup.Rank a < TitleGroup.Rank b -> (i < j)%nat) /\
    getTitleRank "King" = 10 /\ getTitleRank "Pope" = 55.
Proof.
  intros [iter [Hperm ->]].
  exists (sortByRank (makeTitleGroups iter)).
  split; [reflexivity|]. split; [|split; [|split; [|split]]].
  - rewrite (sortByRank_perm (makeTitleGroups iter)).
    unfold makeTitleGroups. rewrite map_map.
    rewrite (map_ext _ fst) by (now intros [title ps]).
    change (map fst iter) with (iter.*1). rewrite Hperm.
    apply NoDup_fst_map_to_list.
  - intros g. rewrite (sortByRank_perm (makeTitleGroups iter)).
    now apply makeTitleGroups_elem.
  - apply sortByRank_ranked.
  - intros i j a b. apply ranked_before, sortByRank_ranked.
  - split; reflexivity.
Qed.

Lemma formatSubtitle_ranked_witness :
  exists groups : list TitleGroup.t,
    "King (990-999); Pope (1000-1003)" = subtitleOf groups null_string /\
    NoDup (map TitleGroup.Title groups) /\
    (forall g, g ∈ groups <->
               exists p, p ∈ pope_and_king /\
                         g = groupOf pope_and_king (PeriodInfo.Title p)) /\
    ranked groups /\
    (forall (i j : nat) a b,
        groups !! i = Some a -> groups !! j = Some b ->
        TitleGroup.Rank a < TitleGroup.Rank b -> (i < j)%nat) /\
    getTitleRank "King" = 10 /\ getTitleRank "Pope" = 55.
Proof.
  apply (formatSubtitle_ranked pope_and_king null_string).
  exists [("Pope", [sample_period "Pope" 1000 1003]);
          ("King", [sample_period "King" 990 999])].
  split; [|reflexivity].
  vm_compute. apply perm_swap.
Defined.

(** The king comes before the pope whichever way the map is visited. *)
Lemma formatSubtitle_king_before_pope (out : string) :
  formatSubtitle pope_and_king null_string out ->
  out = "King (990-999); Pope (1000-1003)".
Proof.
  intros [iter [Hperm ->]].
  assert (Hmap : map_to_list (groupByTitle pope_and_king) =
                 [("King", [sample_period "King" 990 999]);
                  ("Pope", [sample_period "Pope" 1000 1003])])
    by (vm_compute; reflexivity).
  rewrite Hmap in Hperm. symmetry in Hperm.
  apply Permutation_length_2_inv in Hperm as [-> | ->]; reflexivity.
Qed.

(** C5, as stated, fails for equal ranks: the sort is not stable, and the
    order in which the map of title groups is visited is not fixed.  With
    the groups visited in the order of the periods, the two kingdoms come
    out exchanged; visited in another order, they come out as they were. *)
Lemma formatSubtitle_ties_not_stable :
  let iter :=
    [ ("King of England", [sample_period "King of England" 1603 1625]);
      ("King of Scotland", [sample_period "King of Scotland" 1567 1625]);
      ("Roman Emperor", [sample_period "Roman Emperor" 1610 1611]) ] in
  iter ≡ₚ map_to_list (groupByTitle two_kingdoms) /\
  map TitleGroup.Title (spec_stable_sort (makeTitleGroups iter)) =
    ["Roman Emperor"; "King of England"; "King of Scotland"] /\
  map TitleGroup.Title (sortByRank (makeTitleGroups iter)) =
    ["Roman Emperor"; "King of Scotland"; "King of England"] /\
  sortByRank (makeTitleGroups iter) <> spec_stable_sort (makeTitleGroups iter) /\
  formatSubtitle two_kingdoms null_string
    "Roman Emperor (1610-1611); King of Scotland (1567-1625); King of England (1603-1625)" /\
  formatSubtitle two_kingdoms null_string
    "Roman Emperor (1610-1611); King of England (1603-1625); King of Scotland (1567-1625)".
Proof.
  cbv zeta.
  assert (Hmap : map_to_list (groupByTitle two_kingdoms) =
    [ ("King of Scotland", [sample_period "King of Scotland" 1567 1625]);
      ("King of England", [sample_period "King of England" 1603 1625]);
      ("Roman Emperor", [sample_period "Roman Emperor" 1610 1611]) ])
    by (vm_compute; reflexivity).
  split; [|split; [|split; [|split; [|split]]]].
  - rewrite Hmap. apply perm_swap.
  - reflexivity.
  - reflexivity.
  - discriminate.
  - exists [ ("King of England", [sample_period "King of England" 1603 1625]);
             ("King of Scotland", [sample_period "King of Scotland" 1567 1625]);
             ("Roman Emperor", [sample_period "Roman Emperor" 1610 1611]) ].
    split; [|reflexivity]. rewrite Hmap. apply perm_swap.
  - exists [ ("King of Scotland", [sample_period "King of Scotland" 1567 1625]);
             ("King of England", [sample_period "King of England" 1603 1625]);
             ("Roman Emperor", [sample_period "Roman Emperor" 1610 1611]) ].
    split; [|reflexivity]. rewrite Hmap. reflexivity.
Qed.

(* ===================================================================== *)
(** * Further properties: [formatNumber] *)
(* ===================================================================== *)

Section FormatNumber.

Lemma stripCommas_app a b :
  stripCommas (a ++ b) = stripCommas a ++ stripCommas b.
Proof.
  induction a as [|c a IH]; [reflexivity|].
  rewrite app_String. simpl. destruct (Ascii.eqb c ","); [assumption|].
  now rewrite app_String, IH.
Qed.

Lemma stripCommas_loop str : forall total i,
  stripCommas (formatNumber_loop total i str) = stripCommas str.
Proof.
  induction str as [|c str IH]; intros total i; [reflexivity|].
  cbn [formatNumber_loop].
  destruct ((0 <? i)%nat && ((total - i) mod 3 =? 0)%nat);
    cbn [stripCommas]; rewrite ?Ascii.eqb_refl; cbn [stripCommas];
    now rewrite IH.
Qed.

Lemma digit_not_comma c : is_digit c = true -> Ascii.eqb c "," = false.
Proof.
  intros H. destruct (Ascii.eqb_spec c ",") as [->|]; [discriminate | reflexivity].
Qed.

Lemma stripCommas_digits ds :
  all_bytes is_digit ds = true -> stripCommas ds = ds.
Proof.
  induction ds as [|c ds IH]; simpl; [trivial|].
  intros H. apply andb_true_iff in H as [Hc Hds].
  now rewrite (digit_not_comma c Hc), IH.
Qed.

Lemma stripCommas_rendering g : rendering g -> stripCommas g = g.
Proof.
  intros [ds Hds _ | ds Hds _]; [now apply stripCommas_digits|].
  cbn [stripCommas]. change (Ascii.eqb "-" ",") with false. cbv iota.
  now rewrite stripCommas_digits.
Qed.

(** The loop, after the first byte: the digits left over in front, then
    whole groups, each behind its comma. *)
Lemma formatNumber_loop_groups str : forall total i,
  all_bytes is_digit str = true ->
  total = (i + String.length str)%nat -> (0 < i)%nat ->
  exists head tail,
    formatNumber_loop total i str = head ++ tail /\
    all_bytes is_digit head = true /\
    String.length head = (String.length str mod 3)%nat /\
    lang (Star thousands_group) tail.
Proof.
  induction str as [|c str IH]; intros total i Hd Ht Hi.
  - exists "", "". repeat split. constructor.
  - simpl in Hd. apply andb_true_iff in Hd as [Hc Hd].
    destruct (IH total (S i) Hd) as [head [tail [Hloop [Hhd [Hlen Htail]]]]];
      [simpl in Ht; lia | lia |].
    cbn [formatNumber_loop]. rewrite Hloop.
    assert (Hpos : (0 <? i)%nat = true) by (apply Nat.ltb_lt; lia).
    rewrite Hpos. cbn [andb].
    replace (total - i)%nat with (S (String.length str)) by (simpl in Ht; lia).
    destruct (Nat.eqb_spec (S (String.length str) mod 3) 0) as [Hz|Hnz].
    + assert (Hl2 : String.length head = 2%nat).
      { rewrite Hlen.
        pose proof (Nat.div_mod_eq (S (String.length str)) 3).
        pose proof (Nat.div_mod_eq (String.length str) 3).
        pose proof (Nat.mod_upper_bound (String.length str) 3). lia. }
      destruct head as [|d1 [|d2 [|d3 head]]]; try discriminate Hl2.
      simpl in Hhd. rewrite !andb_true_iff in Hhd. destruct Hhd as [H1 [H2 _]].
      exists "", (String "," (String c (String d1 (String d2 ""))) ++ tail).
      split; [reflexivity|]. split; [reflexivity|]. split; [cbn [String.length]; now rewrite Hz|].
      constructor; [|exact Htail].
      change (String "," (String c (String d1 (String d2 ""))))
        with ("," ++ (String c "" ++ (String d1 "" ++ String d2 ""))).
      unfold thousands_group.
      repeat (constructor; try assumption).
    + exists (String c head), tail.
      split; [reflexivity|]. split; [simpl; now rewrite Hc, Hhd|].
      split; [|assumption].
      cbn [String.length]. rewrite Hlen.
        pose proof (Nat.div_mod_eq (S (String.length str)) 3).
        pose proof (Nat.div_mod_eq (String.length str) 3).
        pose proof (Nat.mod_upper_bound (String.length str) 3).
        pose proof (Nat.mod_upper_bound (S (String.length str)) 3). lia.
Qed.

Lemma digits_one_to_three ds :
  all_bytes is_digit ds = true ->
  (1 <= String.length ds <= 3)%nat ->
  lang (Seq Digit (Seq (Opt Digit) (Opt Digit))) ds.
Proof.
  intros Hd Hlen.
  destruct ds as [|a [|b [|c [|d ds]]]]; simpl in Hlen; try lia;
    simpl in Hd; rewrite ?andb_true_iff in Hd.
  - change (String a "") with (String a "" ++ ("" ++ "")).
    constructor; [constructor; tauto|].
    constructor; apply L_AltR; constructor.
  - change (String a (String b "")) with (String a "" ++ (String b "" ++ "")).
    constructor; [constructor; tauto|].
    constructor; [apply L_AltL; constructor; tauto | apply L_AltR; constructor].
  - change (String a (String b (String c "")))
      with (String a "" ++ (String b "" ++ String c "")).
    constructor; [constructor; tauto|].
    constructor; apply L_AltL; constructor; tauto.
Qed.

End FormatNumber.

(** X1. Taking the commas out of [formatNumber n] gives back the decimal
    string of [n]: the function only inserts separators, it never drops or
    changes a byte of the number. *)
Theorem formatNumber_stripCommas (n : Z) :
  stripCommas (formatNumber n) = Itoa n.
Proof.
  unfold formatNumber.
  destruct (len (Itoa n) <=? 3)%nat.
  - apply stripCommas_rendering, Itoa_rendering.
  - rewrite stripCommas_loop. apply stripCommas_rendering, Itoa_rendering.
Qed.

(** X2. For every [n >= 0], [formatNumber n] is one to three digits
    followed by groups of a comma and exactly three digits. *)
Theorem formatNumber_grouped (n : Z) :
  0 <= n -> lang grouped_pattern (formatNumber n).
Proof.
  intros Hn. destruct (Itoa_nonneg n Hn) as [Hd Hne].
  unfold formatNumber, grouped_pattern, len.
  destruct (Nat.leb_spec (String.length (Itoa n)) 3) as [Hle|Hgt].
  - rewrite <- (app_empty_r (Itoa n)). constructor; [|constructor].
    apply digits_one_to_three; [assumption|].
    destruct (Itoa n); [congruence | simpl in *; lia].
  - destruct (Itoa n) as [|c str] eqn:E; [congruence|].
    simpl in Hd. apply andb_true_iff in Hd as [Hc Hd].
    cbn [formatNumber_loop]. cbn [Nat.ltb Nat.leb andb].
    destruct (formatNumber_loop_groups str (String.length (String c str)) 1 Hd)
      as [head [tail [Hloop [Hhd [Hlen Htail]]]]]; [reflexivity | lia |].
    rewrite Hloop, <- app_String. constructor; [|assumption].
    apply digits_one_to_three.
    + simpl. now rewrite Hc, Hhd.
    + cbn [String.length]. rewrite Hlen.
      pose proof (Nat.mod_upper_bound (String.length str) 3). lia.
Qed.

Lemma formatNumber_grouped_witness : lang grouped_pattern (formatNumber 1234567).
Proof. apply (formatNumber_grouped 1234567). lia. Defined.

(* ===================================================================== *)
(** * Further properties: ranks and the highest-ranked title *)
(* ===================================================================== *)

Section Ranks.

Lemma getTitleRank_table_driven title :
  getTitleRank title = lookupRank rankTable (ToLower title).
Proof.
  unfold getTitleRank, rankTable, lookupRank, existsb.
  rewrite !orb_false_r. reflexivity.
Qed.

Lemma ToLower_app a b : ToLower (a ++ b) = ToLower a ++ ToLower b.
Proof.
  induction a as [|c a IH]; [reflexivity|].
  rewrite app_String. simpl. now rewrite IH, app_String.
Qed.

Lemma Contains_extend s pre post k :
  Contains s k = true -> Contains (pre ++ s ++ post) k = true.
Proof.
  rewrite !Contains_spec. intros [a [b ->]].
  exists (pre ++ a), (b ++ post). now rewrite !string_app_assoc.
Qed.

Lemma existsb_Contains_extend s s' keywords :
  (forall k, Contains s k = true -> Contains s' k = true) ->
  existsb (Contains s) keywords = true -> existsb (Contains s') keywords = true.
Proof.
  intros Hext. rewrite !existsb_exists. intros [k [Hin Hk]]. eauto.
Qed.

(** A table never returns less than the least of its ranks. *)
Lemma lookupRank_lower_bound table s bound :
  Forall (fun entry => bound <= snd entry) table -> bound <= 1000 ->
  bound <= lookupRank table s.
Proof.
  induction 1 as [|[keywords rank] table Hr _ IH]; intros Hb; simpl; [assumption|].
  destruct (existsb (Contains s) keywords); [exact Hr | auto].
Qed.

(** With the ranks in ascending order, passing more tests cannot raise
    the rank. *)
Lemma lookupRank_mono table s s' :
  (forall k, Contains s k = true -> Contains s' k = true) ->
  StronglySorted (fun a b => snd a <= snd b) table ->
  Forall (fun entry => snd entry <= 1000) table ->
  lookupRank table s' <= lookupRank table s.
Proof.
  intros Hext Hsorted. induction Hsorted as [|[keywords rank] table _ IH Hle];
    intros Hmax; simpl; [lia|].
  inversion Hmax as [|? ? Hr Hrest]; subst. simpl in Hr.
  destruct (existsb (Contains s) keywords) eqn:Es.
  - now rewrite (existsb_Contains_extend s s' keywords Hext Es).
  - destruct (existsb (Contains s') keywords); [|auto].
    apply lookupRank_lower_bound; assumption.
Qed.

Lemma rankTable_sorted :
  StronglySorted (fun a b => snd a <= snd b) rankTable /\
  Forall (fun entry => snd entry <= 1000) rankTable.
Proof.
  split.
  - unfold rankTable.
    repeat (constructor; [|repeat (constructor; [simpl; lia|]); constructor]).
    constructor.
  - repeat (constructor; [simpl; lia|]). constructor.
Qed.

End Ranks.

(** X3. Text added before or after a title never worsens its rank: the
    rank of [pre ++ title ++ post] is at most the rank of [title] (a lower
    number is a higher priority). *)
Theorem getTitleRank_extend (pre title post : string) :
  getTitleRank (pre ++ title ++ post) <= getTitleRank title.
Proof.
  rewrite !getTitleRank_table_driven.
  destruct rankTable_sorted as [Hsorted Hmax].
  apply lookupRank_mono; [|assumption..].
  intros k Hk. rewrite !ToLower_app. now apply Contains_extend.
Qed.

Section Highest.

Local Open Scope list_scope.

(** The loop of [getHighestRankedTitle] keeps a title with its rank, never
    above the rank of a period it has seen. *)
Lemma highest_fold periods : forall title,
  let step := fun '(highestTitle, highestRank) period =>
                let rank := getTitleRank (PeriodInfo.Title period) in
                if rank <? highestRank then (PeriodInfo.Title period, rank)
                else (highestTitle, highestRank) in
  let result := fold_left step periods (title, getTitleRank title) in
  snd result = getTitleRank (fst result) /\
  snd result <= getTitleRank title /\
  Forall (fun q => snd result <= periodRank q) periods /\
  (fst result = title \/ exists q, q ∈ periods /\ fst result = PeriodInfo.Title q).
Proof.
  induction periods as [|p periods IH]; intros title; cbv zeta.
  - simpl. repeat split; [lia | constructor | now left].
  - cbn [fold_left].
    destruct (Z.ltb_spec (getTitleRank (PeriodInfo.Title p)) (getTitleRank title))
      as [Hlt|Hge].
    + destruct (IH (PeriodInfo.Title p)) as [H1 [H2 [H3 H4]]]. cbv zeta in *.
      split; [assumption|]. split; [lia|]. split.
      * constructor; [exact H2 | assumption].
      * right. destruct H4 as [-> | [q [Hq ->]]].
        -- exists p. split; [left | reflexivity].
        -- exists q. split; [now right | reflexivity].
    + destruct (IH title) as [H1 [H2 [H3 H4]]]. cbv zeta in *.
      split; [assumption|]. split; [assumption|]. split.
      * constructor; [unfold periodRank; lia | assumption].
      * destruct H4 as [-> | [q [Hq ->]]]; [now left|].
        right. exists q. split; [now right | reflexivity].
Qed.

(** Two lists in ascending order of a key, with the same entries, are the
    same list when entries with the same key are the same entry. *)
Lemma ranked_unique (l1 : list TitleGroup.t) : forall l2,
  ranked l1 -> ranked l2 -> l1 ≡ₚ l2 ->
  (forall a b, a ∈ l1 -> b ∈ l1 ->
               TitleGroup.Rank a = TitleGroup.Rank b -> a = b) ->
  l1 = l2.
Proof.
  unfold ranked.
  induction l1 as [|x l1 IH]; intros l2 Hs1 Hs2 Hperm Hinj.
  - now apply Permutation_nil_l in Hperm.
  - destruct l2 as [|y l2]; [now apply Permutation_nil_r in Hperm|].
    inversion Hs1 as [|? ? Hs1' Hx]; subst.
    inversion Hs2 as [|? ? Hs2' Hy]; subst.
    assert (Hxy : x = y).
    { assert (Hyin : y ∈ x :: l1) by (rewrite Hperm; left).
      assert (Hxin : x ∈ y :: l2) by (rewrite <- Hperm; left).
      apply Hinj; [left | assumption |].
      rewrite Forall_forall in Hx, Hy.
      apply elem_of_cons in Hyin as [->|Hyin]; [reflexivity|].
      apply elem_of_cons in Hxin as [->|Hxin]; [reflexivity|].
      specialize (Hx y Hyin). specialize (Hy x Hxin). lia. }
    subst y. f_equal. apply IH; trivial.
    + now apply Permutation_cons_inv in Hperm.
    + intros a b Ha Hb. apply Hinj; now right.
Qed.

(** Every period falls in the group of its title and in no other. *)
Lemma concat_groups periods : forall titles : list string,
  NoDup titles ->
  (forall p, p ∈ periods -> PeriodInfo.Title p ∈ titles) ->
  concat (map (fun t => filter (fun p => PeriodInfo.Title p = t) periods) titles)
  ≡ₚ periods.
Proof.
  induction periods as [|p periods IH]; intros titles Hnd Hall.
  - clear Hnd Hall. induction titles as [|t titles IHt]; [reflexivity|].
    simpl. exact IHt.
  - assert (Hp : PeriodInfo.Title p ∈ titles) by (apply Hall; left).
    apply list_elem_of_split in Hp as [t1 [t2 ->]].
    pose proof (proj1 (NoDup_app _ _) Hnd) as [_ [Hdisj Hnd2]].
    assert (H1 : PeriodInfo.Title p ∉ t1).
    { intros Hin. apply (Hdisj _ Hin). left. }
    assert (H2 : PeriodInfo.Title p ∉ t2) by now apply NoDup_cons_1_1.
    assert (Hskip : forall ts, PeriodInfo.Title p ∉ ts ->
      map (fun t => filter (fun q => PeriodInfo.Title q = t) (p :: periods)) ts =
      map (fun t => filter (fun q => PeriodInfo.Title q = t) periods) ts).
    { intros ts Hts. apply map_ext_in. intros t Ht.
      rewrite filter_cons. destruct (decide (PeriodInfo.Title p = t)) as [<-|_];
        [|reflexivity].
      exfalso. apply Hts. now apply list_elem_of_In. }
    rewrite map_app, concat_app. cbn [map concat].
    rewrite (Hskip t1 H1), (Hskip t2 H2).
    rewrite filter_cons. destruct (decide _) as [_|Hne]; [|congruence].
    rewrite <- (IH (t1 ++ PeriodInfo.Title p :: t2) Hnd) at 2
      by (intros q Hq; apply Hall; now right).
    rewrite map_app, concat_app. cbn [map concat].
    rewrite <- app_comm_cons. symmetry. apply Permutation_middle.
Qed.

End Highest.

(** The title [getHighestRankedTitle] picks among periods. *)
Lemma highest_least (periods : list PeriodInfo.t) :
  periods <> [] ->
  exists p, p ∈ periods /\
            getHighestRankedTitle periods = PeriodInfo.Title p /\
            forall q, q ∈ periods -> periodRank p <= periodRank q.
Proof.
  intros Hne.
  destruct periods as [|first rest]; [congruence|].
  unfold getHighestRankedTitle.
  destruct (highest_fold (first :: rest) (PeriodInfo.Title first))
    as [H1 [H2 [H3 H4]]]. cbv zeta in *.
  assert (Hin : exists q, q ∈ first :: rest /\
                          fst (fold_left
                                 (fun '(highestTitle, highestRank) period =>
                                    if getTitleRank (PeriodInfo.Title period) <? highestRank
                                    then (PeriodInfo.Title period,
                                          getTitleRank (PeriodInfo.Title period))
                                    else (highestTitle, highestRank))
                                 (first :: rest)
                                 (PeriodInfo.Title first,
                                  getTitleRank (PeriodInfo.Title first)))
                          = PeriodInfo.Title q).
  { destruct H4 as [H4 | H4]; [|exact H4]. exists first. split; [left | exact H4]. }
  destruct Hin as [p [Hp Hres]]. exists p. split; [exact Hp|]. split; [exact Hres|].
  intros q Hq. rewrite Forall_forall in H3. specialize (H3 q Hq).
  unfold periodRank at 1. rewrite <- Hres, <- H1. exact H3.
Qed.

(** X4. [getHighestRankedTitle] returns the title of one of the periods,
    and no period has a title of lower rank number; for an empty list it
    returns the empty string. *)
Theorem getHighestRankedTitle_least (periods : list PeriodInfo.t) :
  getHighestRankedTitle [] = "" /\
  (periods <> [] ->
   exists p, p ∈ periods /\
             getHighestRankedTitle periods = PeriodInfo.Title p /\
             forall q, q ∈ periods -> periodRank p <= periodRank q).
Proof. split; [reflexivity | apply highest_least]. Qed.

Lemma getHighestRankedTitle_least_witness :
  exists p, p ∈ pope_and_king /\
            getHighestRankedTitle pope_and_king = PeriodInfo.Title p /\
            forall q, q ∈ pope_and_king -> periodRank p <= periodRank q.
Proof.
  apply (proj2 (getHighestRankedTitle_least pope_and_king)). discriminate.
Defined.

(** X5. The title chosen for the icon and for the "show all" action has
    the rank of the first title group of the subtitle, whichever way the
    map of title groups is visited. *)
Theorem highest_title_leads_subtitle (periods : list PeriodInfo.t)
    (iter : list (string * list PeriodInfo.t)) :
  periods <> [] ->
  iter ≡ₚ map_to_list (groupByTitle periods) ->
  exists first rest,
    sortByRank (makeTitleGroups iter) = first :: rest /\
    TitleGroup.Rank first = getTitleRank (getHighestRankedTitle periods).
Proof.
  intros Hne Hperm.
  destruct (highest_least periods Hne) as [p [Hp [Hres Hmin]]].
  assert (Helem : forall g, g ∈ sortByRank (makeTitleGroups iter) <->
                            exists q, q ∈ periods /\
                                      g = groupOf periods (PeriodInfo.Title q)).
  { intros g. rewrite (sortByRank_perm (makeTitleGroups iter)).
    now apply makeTitleGroups_elem. }
  pose proof (sortByRank_ranked (makeTitleGroups iter)) as Hranked.
  destruct (sortByRank (makeTitleGroups iter)) as [|first rest] eqn:E.
  - exfalso. assert (Hin : groupOf periods (PeriodInfo.Title p) ∈ @nil TitleGroup.t)
      by (apply Helem; eauto).
    inversion Hin.
  - exists first, rest. split; [reflexivity|]. rewrite Hres.
    assert (Hfirst : first ∈ first :: rest) by left.
    apply Helem in Hfirst as [q [Hq ->]]. simpl.
    assert (Hpin : groupOf periods (PeriodInfo.Title p) ∈
                   groupOf periods (PeriodInfo.Title q) :: rest)
      by (apply Helem; eauto).
    specialize (Hmin q Hq). unfold periodRank in Hmin.
    apply elem_of_cons in Hpin as [Heq | Hin].
    + apply (f_equal TitleGroup.Rank) in Heq. simpl in Heq. lia.
    + unfold ranked in Hranked. inversion Hranked as [|? ? _ Hall]; subst.
      rewrite Forall_forall in Hall. specialize (Hall _ Hin). simpl in Hall. lia.
Qed.

Lemma highest_title_leads_subtitle_witness :
  exists first rest,
    sortByRank (makeTitleGroups
                  [("Pope", [sample_period "Pope" 1000 1003]);
                   ("King", [sample_period "King" 990 999])]) = first :: rest /\
    TitleGroup.Rank first = getTitleRank (getHighestRankedTitle pope_and_king).
Proof.
  apply (highest_title_leads_subtitle pope_and_king).
  - discriminate.
  - vm_compute. apply perm_swap.
Defined.

(** X6. When no two different titles of a ruler have the same rank, the
    subtitle does not depend on the order in which the map of title groups
    is visited: [formatSubtitle] has one result. *)
Theorem formatSubtitle_deterministic (periods : list PeriodInfo.t)
    (personalName : NullString) (out1 out2 : string) :
  (forall p q, p ∈ periods -> q ∈ periods ->
               periodRank p = periodRank q ->
               PeriodInfo.Title p = PeriodInfo.Title q) ->
  formatSubtitle periods personalName out1 ->
  formatSubtitle periods personalName out2 ->
  out1 = out2.
Proof.
  intros Hinj [iter1 [Hperm1 ->]] [iter2 [Hperm2 ->]].
  unfold formatSubtitleIter, titleParts.
  assert (Heq : sortByRank (makeTitleGroups iter1) =
                sortByRank (makeTitleGroups iter2)).
  { apply ranked_unique; try apply sortByRank_ranked.
    - rewrite !sortByRank_perm. unfold makeTitleGroups.
      apply Permutation_map. now rewrite Hperm1, Hperm2.
    - intros a b Ha Hb Hrank.
      rewrite (sortByRank_perm (makeTitleGroups iter1)) in Ha, Hb.
      apply (makeTitleGroups_elem periods iter1 a Hperm1) in Ha as [p [Hp ->]].
      apply (makeTitleGroups_elem periods iter1 b Hperm1) in Hb as [q [Hq ->]].
      simpl in Hrank. now rewrite (Hinj p q Hp Hq Hrank). }
  now rewrite Heq.
Qed.

Lemma formatSubtitle_deterministic_witness :
  formatSubtitleIter [("Pope", [sample_period "Pope" 1000 1003]);
                      ("King", [sample_period "King" 990 999])] null_string =
  formatSubtitleIter [("King", [sample_period "King" 990 999]);
                      ("Pope", [sample_period "Pope" 1000 1003])] null_string.
Proof.
  assert (Hmap : map_to_list (groupByTitle pope_and_king) =
                 [("King", [sample_period "King" 990 999]);
                  ("Pope", [sample_period "Pope" 1000 1003])])
    by (vm_compute; reflexivity).
  apply (formatSubtitle_deterministic pope_and_king null_string).
  - intros p q Hp Hq.
    apply list_elem_of_In in Hp, Hq. simpl in Hp, Hq.
    destruct Hp as [<- | [<- | []]], Hq as [<- | [<- | []]];
      vm_compute; congruence.
  - eexists. split; [|reflexivity]. rewrite Hmap. apply perm_swap.
  - eexists. split; [|reflexivity]. rewrite Hmap. reflexivity.
Defined.

(** X7. The title groups of a subtitle hold every period of the ruler
    exactly once: put end to end, the periods of the groups are a
    permutation of the ruler's periods. *)
Theorem formatSubtitle_keeps_periods (periods : list PeriodInfo.t)
    (iter : list (string * list PeriodInfo.t)) :
  iter ≡ₚ map_to_list (groupByTitle periods) ->
  concat (map TitleGroup.Periods (sortByRank (makeTitleGroups iter))) ≡ₚ periods.
Proof.
  intros Hperm.
  set (groups := sortByRank (makeTitleGroups iter)).
  assert (Helem : forall g, g ∈ groups <->
                            exists q, q ∈ periods /\
                                      g = groupOf periods (PeriodInfo.Title q)).
  { intros g. unfold groups. rewrite (sortByRank_perm (makeTitleGroups iter)).
    now apply makeTitleGroups_elem. }
  assert (Hnd : NoDup (map TitleGroup.Title groups)).
  { unfold groups. rewrite (sortByRank_perm (makeTitleGroups iter)).
    unfold makeTitleGroups. rewrite map_map.
    rewrite (map_ext _ fst) by (now intros [title ps]).
    change (map fst iter) with (iter.*1). rewrite Hperm.
    apply NoDup_fst_map_to_list. }
  assert (Hmap : map TitleGroup.Periods groups =
                 map (fun t => filter (fun p => PeriodInfo.Title p = t) periods)
                     (map TitleGroup.Title groups)).
  { rewrite map_map. apply map_ext_in. intros g Hg.
    apply list_elem_of_In, Helem in Hg as [q [_ ->]]. reflexivity. }
  rewrite Hmap. apply concat_groups; [exact Hnd|].
  intros p Hp. apply list_elem_of_In, in_map_iff.
  exists (groupOf periods (PeriodInfo.Title p)). split; [reflexivity|].
  apply list_elem_of_In, Helem. eauto.
Qed.

Lemma formatSubtitle_keeps_periods_witness :
  concat (map TitleGroup.Periods
            (sortByRank (makeTitleGroups
                           [("Pope", [sample_period "Pope" 1000 1003]);
                            ("King", [sample_period "King" 990 999])])))
  ≡ₚ pope_and_king.
Proof.
  apply (formatSubtitle_keeps_periods pope_and_king).
  vm_compute. apply perm_swap.
Defined.

(* ===================================================================== *)
(** * Further properties: year terms *)
(* ===================================================================== *)

Section YearTerms.

Lemma RepeatByte_bytes P c k :
  all_bytes P (RepeatByte c k) = true -> P c = false -> k = 0%nat.
Proof.
  destruct k as [|k]; [trivial|]. simpl. intros H Hc.
  rewrite Hc in H. discriminate.
Qed.

Lemma rendering_bytes g :
  rendering g ->
  all_bytes (fun c => Ascii.eqb c "-" || is_digit c) g = true.
Proof.
  intros [ds Hds _ | ds Hds _]; simpl;
    (eapply all_bytes_weaken; [|exact Hds]); intros c ->; apply orb_true_r.
Qed.

(** The decimal string of an integer has no asterisk to strip. *)
Lemma Itoa_no_asterisk z :
  asteriskCount (Itoa z) = 0%nat /\ yearPrefix (Itoa z) = Itoa z.
Proof.
  pose proof (yearTerm_decomp (Itoa z)) as Hd.
  pose proof (rendering_bytes _ (Itoa_rendering z)) as Hb.
  rewrite Hd, all_bytes_app in Hb. apply andb_true_iff in Hb as [_ Hb].
  apply RepeatByte_bytes in Hb; [|reflexivity].
  split; [exact Hb|]. rewrite Hb in Hd. simpl in Hd.
  now rewrite app_empty_r in Hd.
Qed.

Lemma Itoa_not_range z :
  CountByte (Itoa z) "-" = 0%nat \/
  (CountByte (Itoa z) "-" = 1%nat /\ HasPrefix (Itoa z) "-" = true).
Proof.
  destruct (Z.lt_ge_cases z 0) as [Hneg|Hpos].
  - right. split; [now apply CountByte_rendering_neg|].
    now rewrite (Itoa_neg z Hneg).
  - left. now apply CountByte_rendering_nonneg.
Qed.

(** [strings.Split] on a text with one separator: the two sides. *)
Lemma SplitByte_one s c :
  CountByte s c = 1%nat ->
  exists a b, SplitByte s c = [a; b] /\ s = a ++ String c b /\
              CountByte a c = 0%nat /\ CountByte b c = 0%nat.
Proof.
  induction s as [|d s IH]; simpl; [discriminate|].
  destruct (Ascii.eqb_spec d c) as [->|Hne]; intros Hc.
  - exists "", s. assert (H0 : CountByte s c = 0%nat) by lia.
    split; [|repeat split; assumption].
    f_equal. clear IH Hc. induction s as [|e s IHs]; [reflexivity|].
    simpl in *. destruct (Ascii.eqb e c); [discriminate|].
    now rewrite IHs.
  - destruct (IH Hc) as [a [b [Hs [-> [Ha Hb]]]]].
    exists (String d a), b. rewrite Hs. repeat split; trivial.
    simpl. destruct (Ascii.eqb_spec d c); [congruence | assumption].
Qed.

Lemma HasPrefix_one s c :
  HasPrefix s (String c "") = false <->
  match s with EmptyString => True | String d _ => d <> c end.
Proof.
  destruct s as [|d s]; simpl; [tauto|].
  rewrite andb_true_r. destruct (Ascii.eqb_spec c d); split; congruence.
Qed.

(** The text of a number: digits behind an optional minus sign. *)
Lemma digit_value c d :
  is_digit c = true -> exists d', uint_of_char c (Some d) = Some d'.
Proof.
  intros H. apply digit_cases in H. simpl in H.
  repeat (destruct H as [<- | H]; [eexists; reflexivity|]). destruct H.
Qed.

Lemma uint_of_digits ds :
  all_bytes is_digit ds = true -> exists d, NilEmpty.uint_of_string ds = Some d.
Proof.
  induction ds as [|c ds IH]; simpl; [eauto|].
  intros H. apply andb_true_iff in H as [Hc Hds].
  destruct (IH Hds) as [d ->]. now apply digit_value.
Qed.

Lemma parse_decimal_rendering g :
  rendering g -> exists a, parse_decimal g = Some a.
Proof.
  unfold parse_decimal, NilZero.int_of_string, NilZero.uint_of_string.
  intros [ds Hds Hne | ds Hds Hne].
  - destruct ds as [|c ds]; [congruence|].
    pose proof Hds as Hd. simpl in Hd. apply andb_true_iff in Hd as [Hc _].
    rewrite (digit_not_minus c Hc).
    destruct (uint_of_digits _ Hds) as [d ->]. simpl. eauto.
  - rewrite Ascii.eqb_refl. destruct ds as [|c ds]; [congruence|].
    destruct (uint_of_digits _ Hds) as [d ->]. simpl. eauto.
Qed.

(** A run [-?\d*\**] has one hyphen at most. *)
Lemma star_bytes r s P :
  (forall c, reads r c = true -> P c = true) ->
  lang (Star r) s -> all_bytes P s = true.
Proof.
  intros HP H. apply lang_reads in H.
  eapply all_bytes_weaken; [|exact H]. exact HP.
Qed.

Lemma CountByte_without s c :
  all_bytes (fun d => negb (Ascii.eqb d c)) s = true -> CountByte s c = 0%nat.
Proof.
  induction s as [|d s IH]; simpl; [trivial|].
  intros H. apply andb_true_iff in H as [Hd Hs].
  apply negb_true_iff in Hd. now rewrite Hd, IH.
Qed.

Lemma year_run_hyphens s : lang year_run s -> (CountByte s "-" <= 1)%nat.
Proof.
  unfold year_run. intros H.
  inversion H as [ | | | | | r1 r2 s1 s2 Hsign Hrest | | ]; subst.
  inversion Hrest as [ | | | | | r1 r2 u1 u2 Hdig Hast | | ]; subst.
  rewrite !CountByte_app.
  assert (H1 : (CountByte s1 "-" <= 1)%nat).
  { inversion Hsign as [ | | | r1 r2 s Hm | r1 r2 s He | | | ]; subst.
    - inversion Hm; subst. simpl. lia.
    - inversion He; subst. simpl. lia. }
  assert (H2 : CountByte u1 "-" = 0%nat).
  { apply CountByte_without. eapply star_bytes; [|exact Hdig].
    simpl. intros c Hc. now rewrite (digit_not_minus c Hc). }
  assert (H3 : CountByte u2 "-" = 0%nat).
  { apply CountByte_without. eapply star_bytes; [|exact Hast].
    simpl. intros c Hc. apply Ascii.eqb_eq in Hc as ->. reflexivity. }
  lia.
Qed.

(** A text is cut at its first separator in one way only. *)
Lemma cut_at_byte_inj c a b a' b' :
  CountByte a c = 0%nat -> CountByte a' c = 0%nat ->
  a ++ String c "" ++ b = a' ++ String c "" ++ b' -> a = a' /\ b = b'.
Proof.
  change (String c "" ++ b) with (String c b).
  change (String c "" ++ b') with (String c b').
  revert a'. induction a as [|d a IH]; intros a' Ha Ha' H.
  - rewrite app_empty_l in H. destruct a' as [|d' a'].
    + rewrite app_empty_l in H. injection H as <-. now split.
    + rewrite app_String in H. injection H as <- _.
      simpl in Ha'. rewrite Ascii.eqb_refl in Ha'. discriminate.
  - destruct a' as [|d' a'].
    + rewrite app_String, app_empty_l in H. injection H as -> _.
      simpl in Ha. rewrite Ascii.eqb_refl in Ha. discriminate.
    + rewrite !app_String in H. injection H as <- H.
      simpl in Ha, Ha'.
      destruct (Ascii.eqb d c); [discriminate|].
      destruct (IH a' Ha Ha' H) as [-> ->]. now split.
Qed.

Lemma yearCond_cut lo hi :
  lo <> "" -> CountByte lo "-" = 0%nat -> CountByte hi "-" = 0%nat ->
  yearCond (lo ++ "-" ++ hi) = YearBetween lo hi.
Proof.
  intros Hne Hlo Hhi. set (t := lo ++ "-" ++ hi).
  assert (Hc : CountByte t "-" = 1%nat).
  { unfold t. rewrite !CountByte_app, Hlo, Hhi. reflexivity. }
  assert (Hp : HasPrefix t "-" = false).
  { unfold t. destruct lo as [|c lo]; [congruence|].
    rewrite app_String. cbn [HasPrefix]. simpl in Hlo.
    rewrite Ascii.eqb_sym.
    destruct (Ascii.eqb c "-"); [discriminate | reflexivity]. }
  destruct (SplitByte_one t "-" Hc) as [lo' [hi' [Hsplit [Ht [Hlo' _]]]]].
  unfold yearCond. rewrite Hc, Hp, Hsplit. cbn [Nat.eqb negb andb nth].
  symmetry in Ht.
  destruct (cut_at_byte_inj "-" _ _ _ _ Hlo' Hlo Ht) as [-> ->].
  reflexivity.
Qed.

(** The decimal string of [z] as a year term selects [z] alone. *)
Lemma yearSelected_Itoa z y : yearSelected (Itoa z) y = true <-> y = z.
Proof.
  unfold yearSelected. rewrite (yearCond_like _ (Itoa_not_range z)).
  destruct (Itoa_no_asterisk z) as [-> ->]. cbn [evalYearCond].
  unfold Sqlite.cast_text.
  rewrite (like_prefix_wildcards (Itoa z) 0 (Itoa y)).
  - rewrite andb_true_iff, Nat.eqb_eq, Nat.add_0_r. split.
    + intros [Hpre Hlen]. apply HasPrefix_spec in Hpre as [post Hpost].
      rewrite Hpost, string_length_app in Hlen.
      destruct post; [|simpl in Hlen; lia].
      rewrite app_empty_r in Hpost. now apply Itoa_inj.
    + intros ->. split; [|reflexivity].
      apply HasPrefix_spec. exists "". now rewrite app_empty_r.
  - eapply all_bytes_weaken; [|apply (rendering_bytes _ (Itoa_rendering z))].
    intros c Hc. apply year_byte_plain. unfold year_byte.
    now rewrite Hc.
Qed.

End YearTerms.

(** X8. The decimal string of any integer [z], used as a year term, is
    year-like and selects the year [z] and no other. *)
Theorem byYear_exact_year (z y : Z) :
  isNumberLike (Itoa z) = true /\
  (yearSelected (Itoa z) y = true <-> y = z).
Proof.
  split; [apply isNumberLike_rendering, Itoa_rendering | apply yearSelected_Itoa].
Qed.

(** X9. A term with one hyphen that is not in front is cut at the
    hyphen: the condition is [BETWEEN lo AND hi] for the two sides, which
    hold no hyphen and make up the term again, the left one not empty. *)
Theorem byYear_single_hyphen_split (t : string) :
  CountByte t "-" = 1%nat -> HasPrefix t "-" = false ->
  exists lo hi,
    yearCond t = YearBetween lo hi /\
    t = lo ++ "-" ++ hi /\ lo <> "" /\
    CountByte lo "-" = 0%nat /\ CountByte hi "-" = 0%nat.
Proof.
  intros Hc Hp.
  destruct (SplitByte_one t "-" Hc) as [lo [hi [Hsplit [Ht [Hlo Hhi]]]]].
  exists lo, hi. split; [|split; [exact Ht|split; [|split; assumption]]].
  - unfold yearCond. rewrite Hc, Hp, Hsplit. reflexivity.
  - intros ->. rewrite Ht in Hp. discriminate Hp.
Qed.

Lemma byYear_single_hyphen_split_witness :
  exists lo hi,
    yearCond "1700-18*" = YearBetween lo hi /\
    "1700-18*" = lo ++ "-" ++ hi /\ lo <> "" /\
    CountByte lo "-" = 0%nat /\ CountByte hi "-" = 0%nat.
Proof.
  apply (byYear_single_hyphen_split "1700-18*"); reflexivity.
Defined.

(** X10. Wildcards do not work inside a range.  For a term [lo-hi] with
    one hyphen, not in front: when [lo] is not a plain number (it carries
    an asterisk, say) no year is selected; when [lo] is the number [a] and
    [hi] is not a plain number, every year from [a] on is selected, with
    no upper bound. *)
Theorem byYear_range_with_wildcard (lo hi : string) (y : Z) :
  lo <> "" -> CountByte lo "-" = 0%nat -> CountByte hi "-" = 0%nat ->
  let t := lo ++ "-" ++ hi in
  (parse_decimal lo = None -> yearSelected t y = false) /\
  (forall a, parse_decimal lo = Some a -> parse_decimal hi = None ->
             (yearSelected t y = true <-> a <= y)).
Proof.
  intros Hne Hlo Hhi t.
  unfold yearSelected, t. rewrite (yearCond_cut lo hi Hne Hlo Hhi).
  cbn [evalYearCond].
  unfold Sqlite.between, Sqlite.int_ge_literal, Sqlite.int_le_literal.
  split.
  - now intros ->.
  - intros a -> ->. rewrite andb_true_r. apply Z.leb_le.
Qed.

Lemma byYear_range_with_wildcard_witness :
  yearSelected "17*-18*" 1750 = false /\
  (yearSelected "1700-18*" 2024 = true <-> 1700 <= 2024).
Proof.
  split.
  - apply (proj1 (byYear_range_with_wildcard "17*" "18*" 1750
                    ltac:(discriminate) eq_refl eq_refl)). reflexivity.
  - apply (proj2 (byYear_range_with_wildcard "1700" "18*" 2024
                    ltac:(discriminate) eq_refl eq_refl) 1700); reflexivity.
Defined.

(** X11. What [extractRange] returns for any term.  With an end, the term
    is the start, a hyphen and the end, and both are numbers.  With a
    start only, the term is that run of digits, or a minus sign before it:
    the sign of a single year is dropped.  Without a start there is no end
    either. *)
Theorem extractRange_bounds (t s e : string) :
  extractRange t = (s, e) ->
  (e <> "" ->
   t = s ++ "-" ++ e /\
   exists a b, parse_decimal s = Some a /\ parse_decimal e = Some b) /\
  (s <> "" -> e = "" ->
   all_bytes is_digit s = true /\ (t = s \/ t = String "-" s)) /\
  (s = "" -> e = "").
Proof.
  intros Hx.
  destruct (extractRange_cases t)
    as [[g1 [g2 [Ht [H1 [H2 Hr]]]]] | [[_ [g3 [Hg Hr]]] | [_ [_ Hr]]]];
    rewrite Hr in Hx; injection Hx as <- <-.
  - apply rendering_iff in H1, H2.
    pose proof (rendering_nonempty _ H1). pose proof (rendering_nonempty _ H2).
    split; [|split; congruence].
    intros _. split; [exact Ht|].
    destruct (parse_decimal_rendering _ H1) as [a Ha].
    destruct (parse_decimal_rendering _ H2) as [b Hb]. eauto.
  - apply single_group_sound in Hg as [Hd [Hne Hshape]].
    split; [congruence|]. split; [auto | congruence].
  - split; [congruence|]. split; congruence.
Qed.

Lemma extractRange_bounds_witness :
  "-509--27" = "-509" ++ "-" ++ "-27" /\
  exists a b, parse_decimal "-509" = Some a /\ parse_decimal "-27" = Some b.
Proof.
  apply (proj1 (extractRange_bounds "-509--27" "-509" "-27" eq_refl)).
  discriminate.
Defined.

(** X12. A year-like term is made of minus signs, digits and asterisks
    only, with three hyphens at most: the text that [byYear] writes into
    its condition holds no quote and no other byte of SQL syntax. *)
Theorem isNumberLike_alphabet (term : string) :
  isNumberLike term = true ->
  all_bytes year_byte term = true /\
  all_bytes (fun c => negb (Ascii.eqb c "'")) term = true /\
  (CountByte term "-" <= 3)%nat.
Proof.
  intros H. pose proof (isNumberLike_bytes term H) as Hb.
  split; [exact Hb|]. split.
  - eapply all_bytes_weaken; [|exact Hb]. intros c Hc.
    destruct (Ascii.eqb_spec c "'") as [->|]; [discriminate Hc | reflexivity].
  - apply full_match_lang in H. unfold number_like_pattern in H.
    inversion H as [ | | | r1 r2 s Hl | r1 r2 s Hr | | | ]; subst.
    + pose proof (year_run_hyphens _ Hl). lia.
    + inversion Hr as [ | | | | | r1 r2 s1 s2 Hrun Hrest | | ]; subst.
      inversion Hrest as [ | | | | | r1 r2 u1 u2 Hsep Hrun2 | | ]; subst.
      inversion Hsep; subst.
      pose proof (year_run_hyphens _ Hrun).
      pose proof (year_run_hyphens _ Hrun2).
      rewrite !CountByte_app. simpl. lia.
Qed.

Lemma isNumberLike_alphabet_witness :
  all_bytes year_byte "-509--27" = true /\
  all_bytes (fun c => negb (Ascii.eqb c "'")) "-509--27" = true /\
  (CountByte "-509--27" "-" <= 3)%nat.
Proof. apply (isNumberLike_alphabet "-509--27"). reflexivity. Defined.

(* ===================================================================== *)
(** * Further properties: from an item's action to the next invocation *)
(* ===================================================================== *)




Section ConfigFacts.

Variable filepathJoin : string -> string -> string.
Variable userHomeDir : option string.

Lemma getConfig_fields env config :
  getConfig filepathJoin userHomeDir env = Some config ->
  Config.MySource config = Getenv env "mySource" /\
  Config.MyRulerID config = Getenv env "myRulerID" /\
  Config.MyTitle config = Getenv env "myTitle" /\
  Config.MyTitleProg config = Getenv env "mytitleProg" /\
  Config.ShowEvents config =
    negb (String.eqb (Getenv env "SHOW_EVENTS") "false" ||
          String.eqb (Getenv env "SHOW_EVENTS") "0").
Proof.
  unfold getConfig.
  destruct (String.eqb (Getenv env "alfred_workflow_data") "");
    [destruct userHomeDir; [|discriminate]|];
    intros [= <-]; simpl;
    destruct (_ || _); repeat split; reflexivity.
Qed.


End ConfigFacts.


Lemma lineageWindow_nonempty rows myRulerID myProg :
  rows <> [] -> lineageWindow rows myRulerID myProg <> [].
Proof.
  intros Hne. rewrite lineageWindow_spec. unfold spec_window, spec_focal.
  destruct (list_find _ rows) as [[i r]|] eqn:E.
  - apply list_find_Some in E as [Hi _].
    pose proof (lookup_lt_Some _ _ _ Hi) as Hlt.
    intros H. apply (f_equal length) in H. rewrite length_drop in H.
    simpl in H. lia.
  - simpl. exact Hne.
Qed.

Lemma lineageQuery_elem table title r :
  r ∈ lineageQuery table title <-> r ∈ table /\ RulerRow.Title r = title.
Proof.
  unfold lineageQuery. rewrite (orderByProg_perm _), list_elem_of_filter. tauto.
Qed.


(** White space at the ends. *)
Lemma trimLeft_idem s : trimLeft (trimLeft s) = trimLeft s.
Proof.
  induction s as [|c s IH]; [reflexivity|]. simpl.
  destruct (is_space c) eqn:E; [exact IH|]. simpl. now rewrite E.
Qed.


Lemma trimLeft_fixed s :
  match s with EmptyString => True | String c _ => is_space c = false end ->
  trimLeft s = s.
Proof. destruct s as [|c s]; [trivial|]. simpl. now intros ->. Qed.

Lemma rev_app_acc s : forall acc,
  String.rev_app s acc = String.rev s ++ acc.
Proof.
  unfold String.rev. induction s as [|c s IH]; intros acc; cbn [String.rev_app].
  - now rewrite app_empty_l.
  - rewrite (IH (String c acc)), (IH (String c "")), string_app_assoc.
    now rewrite app_String, app_empty_l.
Qed.

Lemma rev_String c s : String.rev (String c s) = String.rev s ++ String c "".
Proof. unfold String.rev at 1. cbn [String.rev_app]. apply rev_app_acc. Qed.

Lemma rev_append s t : String.rev (s ++ t) = String.rev t ++ String.rev s.
Proof.
  induction s as [|c s IH].
  - rewrite app_empty_l. change (String.rev "") with "". now rewrite app_empty_r.
  - rewrite app_String, !rev_String, IH. now rewrite string_app_assoc.
Qed.

Lemma rev_rev s : String.rev (String.rev s) = s.
Proof.
  induction s as [|c s IH]; [reflexivity|].
  rewrite rev_String, rev_append, IH. reflexivity.
Qed.

(** [trimLeft] drops a run of white space and keeps what follows. *)
Lemma trimLeft_split s :
  exists sp, s = sp ++ trimLeft s /\ all_bytes is_space sp = true.
Proof.
  induction s as [|c s [sp [Hs Hsp]]]; [now exists ""|]. simpl.
  destruct (is_space c) eqn:E.
  - exists (String c sp). rewrite app_String, <- Hs. simpl.
    now rewrite E, Hsp.
  - now exists "".
Qed.











Lemma orPlaceholder_true_nonempty q items : orPlaceholder true q items <> [].
Proof.
  unfold orPlaceholder. destruct items as [|x items]; simpl; discriminate.
Qed.

Lemma search_nonempty store config input batch :
  search store config input = Some batch -> AlfredResult.Items batch <> [].
Proof.
  unfold search.
  destruct (classify (Fields input)) as [[anchor residual]|] eqn:E.
  - intros [= <-]. unfold byYear. cbn [AlfredResult.Items].
    apply classify_anchor_nonempty in E.
    destruct (String.eqb_spec anchor ""); [contradiction|].
    apply orPlaceholder_true_nonempty.
  - destruct (Config.ShowEvents config); [|discriminate].
    intros [= <-]. apply orPlaceholder_true_nonempty.
Qed.

Lemma listLineage_nonempty store config q batch :
  listLineage store config q = Some batch -> AlfredResult.Items batch <> [].
Proof.
  unfold listLineage.
  destruct (progQuery _ _ _) as [prog|] eqn:E; [|discriminate].
  intros [= <-]. cbn [AlfredResult.Items].
  assert (Hex : exists prog, progQuery (Store.periodTable store)
                  (Atoi (Config.MyRulerID config)) (Config.MyTitle config)
                = Some prog) by eauto.
  apply progQuery_some in Hex as [r [Hr [_ Ht]]].
  assert (Hin : r ∈ lineageQuery (Store.periodTable store) (Config.MyTitle config))
    by (apply lineageQuery_elem; auto).
  intros Hnil. apply map_eq_nil in Hnil.
  revert Hnil. apply lineageWindow_nonempty.
  intros Hrows. rewrite Hrows in Hin. inversion Hin.
Qed.






(** X15. Once the database is open, every batch that [main] prints holds
    at least one item: a lineage is printed only for a title with a
    holder, and a search without hits prints the placeholder. *)
Theorem main_batch_nonempty (store : Store.t) (config : Config.t)
    (arg : option string) (restoredQuery originalQueryEnv : string)
    (batch : AlfredResult.t) :
  main store config arg restoredQuery originalQueryEnv = Some batch ->
  AlfredResult.Items batch <> [].
Proof.
  unfold main.
  destruct (String.eqb (Config.MySource config) "ruler").
  - destruct (negb _); apply listLineage_nonempty.
  - destruct (String.eqb _ ""); [discriminate|]. apply search_nonempty.
Qed.

Lemma main_batch_nonempty_witness :
  AlfredResult.Items (byYear (sample_store 0) [] "1789" (sample_search true) "1789")
  <> [].
Proof.
  apply (main_batch_nonempty (sample_store 0) (sample_search true)
           (Some "1789") "" "").
  reflexivity.
Defined.


(* ===================================================================== *)
(** * Further properties: the event lists with counters of their own *)
(* ===================================================================== *)

Section LegacyEvents.

(** An item of [byEvent] or [getEventsByYear] beside the item the merged
    search makes of the same event. *)
Lemma countedEventItem_merged myTitle q i total e :
  let a := countedEventItem myTitle q i total e in
  let hit := eventItemWith myTitle q e in
  let b := AlfredItem.set_Subtitle
             (withCounter (counterString (S i) total) (AlfredItem.Subtitle hit))
             hit in
  same_but_copy a b /\
  copyText a = Some (AlfredItem.Title a ++ ": " ++ AlfredItem.Subtitle a) /\
  copyText b = Some (AlfredItem.Title b ++ ": " ++ AlfredItem.Subtitle hit).
Proof.
  cbv zeta.
  assert (Hsub : AlfredItem.Subtitle (countedEventItem myTitle q i total e) =
                 withCounter (counterString (S i) total)
                   (AlfredItem.Subtitle (eventItemWith myTitle q e))).
  { unfold countedEventItem, eventItemWith, withCounter, counterString.
    cbn [AlfredItem.Subtitle].
    replace (Z.of_nat (S i)) with (Z.of_nat i + 1) by lia.
    destruct (String.eqb _ ""); reflexivity. }
  split; [|split].
  - split; [reflexivity|]. split; [exact Hsub|].
    split; [reflexivity|]. split; [reflexivity|]. split; [reflexivity|].
    intros k Hk. unfold countedEventItem, eventItemWith, mods.
    cbn [AlfredItem.Mods AlfredItem.set_Subtitle list_to_map foldr uncurry fst snd].
    rewrite !lookup_insert. repeat case_decide; try reflexivity. congruence.
  - unfold copyText, countedEventItem, mods.
    cbn [AlfredItem.Mods AlfredItem.Title AlfredItem.Subtitle
         list_to_map foldr uncurry].
    repeat first [ now rewrite lookup_insert_eq
                 | rewrite lookup_insert_ne by discriminate ].
  - unfold copyText, eventItemWith, mods.
    cbn [AlfredItem.Mods AlfredItem.Title AlfredItem.Subtitle
         AlfredItem.set_Subtitle list_to_map foldr uncurry].
    repeat first [ now rewrite lookup_insert_eq
                 | rewrite lookup_insert_ne by discriminate ].
Qed.

(** The lists, item by item. *)
Lemma counted_events_merged (title : EventRow.t -> string) q events :
  let legacy :=
    imap (fun i e => countedEventItem (title e) q i (length events) e) events in
  let merged :=
    addUnifiedCounters (map (fun e => eventItemWith (title e) q e) events) in
  Forall2 same_but_copy legacy merged /\
  (forall a, a ∈ legacy ->
     copyText a = Some (AlfredItem.Title a ++ ": " ++ AlfredItem.Subtitle a)) /\
  (forall i b, merged !! i = Some b ->
     exists notes,
       copyText b = Some (AlfredItem.Title b ++ ": " ++ notes) /\
       AlfredItem.Subtitle b =
         withCounter (counterString (S i) (length events)) notes).
Proof.
  cbv zeta.
  pose proof (addUnifiedCounters_counted
                (map (fun e => eventItemWith (title e) q e) events))
    as [Hlen Hat].
  rewrite length_map in Hlen.
  assert (Hmerged : forall i e, events !! i = Some e ->
            addUnifiedCounters
              (map (fun e => eventItemWith (title e) q e) events) !! i =
            Some (AlfredItem.set_Subtitle
                    (withCounter (counterString (S i) (length events))
                       (AlfredItem.Subtitle (eventItemWith (title e) q e)))
                    (eventItemWith (title e) q e))).
  { intros i e He.
    rewrite (Hat i (eventItemWith (title e) q e))
      by now rewrite list_lookup_fmap, He.
    now rewrite length_map. }
  clear Hat.
  split; [|split].
  - apply Forall2_same_length_lookup. split.
    + now rewrite length_imap, Hlen.
    + intros i a b Ha Hb. rewrite list_lookup_imap in Ha.
      destruct (events !! i) as [e|] eqn:He; [|discriminate].
      injection Ha as <-. rewrite (Hmerged i e He) in Hb. injection Hb as <-.
      exact (proj1 (countedEventItem_merged (title e) q i (length events) e)).
  - intros a Ha. apply list_elem_of_lookup in Ha as [i Ha].
    rewrite list_lookup_imap in Ha.
    destruct (events !! i) as [e|]; [|discriminate]. injection Ha as <-.
    exact (proj1 (proj2 (countedEventItem_merged (title e) q i
                           (length events) e))).
  - intros i b Hb.
    destruct (events !! i) as [e|] eqn:He.
    + rewrite (Hmerged i e He) in Hb. injection Hb as <-.
      exists (AlfredItem.Subtitle (eventItemWith (title e) q e)).
      split; [|reflexivity].
      exact (proj2 (proj2 (countedEventItem_merged (title e) q i
                             (length events) e))).
    + apply lookup_lt_Some in Hb. apply lookup_ge_None in He.
      rewrite Hlen in Hb. lia.
Qed.

End LegacyEvents.

(** X17. [byEvent], which counts the events itself, against the events
    that the merged by-name search finds, counted alone.  The two lists
    agree item by item in title, subtitle with its counter, validity,
    argument, icon and every action but "copy"; the copy text of
    [byEvent] holds the subtitle with the counter, that of the merged
    search the subtitle without it. *)
Theorem byEvent_agrees_but_copy (store : Store.t) (searchTerms : list string)
    (originalQuery : string) :
  let legacy := byEvent store searchTerms originalQuery in
  let merged :=
    addUnifiedCounters
      (map (eventItem originalQuery) (Store.eventsByName store searchTerms)) in
  Forall2 same_but_copy legacy merged /\
  (forall a, a ∈ legacy ->
     copyText a = Some (AlfredItem.Title a ++ ": " ++ AlfredItem.Subtitle a)) /\
  (forall i b, merged !! i = Some b ->
     exists notes,
       copyText b = Some (AlfredItem.Title b ++ ": " ++ notes) /\
       AlfredItem.Subtitle b =
         withCounter (counterString (S i) (length merged)) notes).
Proof.
  cbv zeta.
  replace (length (addUnifiedCounters
                     (map (eventItem originalQuery)
                          (Store.eventsByName store searchTerms))))
    with (length (Store.eventsByName store searchTerms))
    by (unfold addUnifiedCounters; now rewrite length_imap, length_map).
  exact (counted_events_merged eventTitle originalQuery
           (Store.eventsByName store searchTerms)).
Qed.

(** X18. [getEventsByYear] against the events that the merged by-year
    search finds, counted alone: the same agreement, and the same
    difference in the copy text. *)
Theorem getEventsByYear_agrees_but_copy (store : Store.t)
    (searchTerms : list string) (yearTerm originalQuery : string) :
  let legacy := getEventsByYear store searchTerms yearTerm originalQuery in
  let merged :=
    addUnifiedCounters
      (map (yearEventItem yearTerm originalQuery)
           (Store.eventsByYear store (yearCond yearTerm) searchTerms)) in
  Forall2 same_but_copy legacy merged /\
  (forall a, a ∈ legacy ->
     copyText a = Some (AlfredItem.Title a ++ ": " ++ AlfredItem.Subtitle a)) /\
  (forall i b, merged !! i = Some b ->
     exists notes,
       copyText b = Some (AlfredItem.Title b ++ ": " ++ notes) /\
       AlfredItem.Subtitle b =
         withCounter (counterString (S i) (length merged)) notes).
Proof.
  cbv zeta.
  replace (length (addUnifiedCounters
                     (map (yearEventItem yearTerm originalQuery)
                          (Store.eventsByYear store (yearCond yearTerm)
                                              searchTerms))))
    with (length (Store.eventsByYear store (yearCond yearTerm) searchTerms))
    by (unfold addUnifiedCounters; now rewrite length_imap, length_map).
  exact (counted_events_merged (yearEventTitle yearTerm) originalQuery
           (Store.eventsByYear store (yearCond yearTerm) searchTerms)).
Qed.

(* ===================================================================== *)
(** * Further properties: rulers by name *)
(* ===================================================================== *)

Section RulerResultsFacts.

Variable iconExists : string -> bool.
Variable pluralQuery : string -> option NullString.

Local Open Scope list_scope.

Lemma rulerPeriods_snoc rows r :
  rulerPeriods (rows ++ [r]) =
  <[RulerRow.RulerID r :=
      default [] (rulerPeriods rows !! RulerRow.RulerID r) ++ [periodInfoOf r]]>
    (rulerPeriods rows).
Proof. unfold rulerPeriods. now rewrite foldl_app. Qed.

(** The periods kept for a ruler: those of its rows, in row order. *)
Lemma rulerPeriods_lookup rows rulerID :
  rulerPeriods rows !! rulerID =
  match filter (fun r => RulerRow.RulerID r = rulerID) rows with
  | [] => None
  | own => Some (map periodInfoOf own)
  end.
Proof.
  induction rows as [|r rows IH] using rev_ind; [reflexivity|].
  rewrite rulerPeriods_snoc, filter_app.
  destruct (decide (RulerRow.RulerID r = rulerID)) as [Heq|Hne].
  - rewrite Heq, lookup_insert_eq, IH.
    rewrite (filter_cons_True _ r []) by exact Heq.
    rewrite filter_nil.
    destruct (filter _ rows) as [|x own]; [reflexivity|].
    simpl. now rewrite map_app.
  - rewrite lookup_insert_ne by exact Hne.
    rewrite (filter_cons_False _ r []) by exact Hne.
    rewrite filter_nil, app_nil_r. exact IH.
Qed.

Lemma rulerPeriods_nonempty rows rulerID periods :
  rulerPeriods rows !! rulerID = Some periods -> periods <> [].
Proof.
  rewrite rulerPeriods_lookup.
  destruct (filter _ rows) as [|x own]; [discriminate|].
  intros [= <-]. discriminate.
Qed.

Lemma rulerPeriods_dom rows rulerID :
  is_Some (rulerPeriods rows !! rulerID) <->
  rulerID ∈ map RulerRow.RulerID rows.
Proof.
  rewrite rulerPeriods_lookup, list_elem_of_fmap. split.
  - destruct (filter _ rows) as [|x own] eqn:E; [intros [? ?]; discriminate|].
    intros _. assert (Hx : x ∈ filter (fun r => RulerRow.RulerID r = rulerID) rows)
      by (rewrite E; left).
    apply list_elem_of_filter in Hx as [Hid Hx]. eauto.
  - intros [x [-> Hx]].
    assert (Hf : x ∈ filter (fun r => RulerRow.RulerID r = RulerRow.RulerID x) rows)
      by (apply list_elem_of_filter; auto).
    destruct (filter _ rows); [inversion Hf | eauto].
Qed.

(** One entry for each ruler of the rows. *)
Lemma rulerPeriods_size rows order :
  order ≡ₚ map_to_list (rulerPeriods rows) ->
  length order = length (remove_dups (map RulerRow.RulerID rows)).
Proof.
  intros Hperm. rewrite Hperm, <- (length_map fst).
  apply Permutation_length, NoDup_Permutation.
  - apply NoDup_fst_map_to_list.
  - apply NoDup_remove_dups.
  - intros rulerID. rewrite elem_of_remove_dups, <- rulerPeriods_dom.
    rewrite list_elem_of_fmap. split.
    + intros [[k v] [-> Hkv]]. apply elem_of_map_to_list in Hkv. eauto.
    + intros [v Hv]. exists (rulerID, v). split; [reflexivity|].
      now apply elem_of_map_to_list.
Qed.

Lemma visits_nonempty rows order titleOrder :
  visits rows order titleOrder ->
  Forall (fun entry => entry.2 <> []) order.
Proof.
  intros [Hperm _]. apply Forall_forall. intros [rulerID periods] Hin.
  rewrite Hperm in Hin. apply elem_of_map_to_list in Hin.
  now apply rulerPeriods_nonempty in Hin.
Qed.

(** The loop over rulers whose period lists are not empty. *)
Lemma rulerLoop_outcome data q titleOrder order :
  Forall (fun entry => entry.2 <> []) order ->
  forall acc,
    (Forall (fun entry => is_Some (pluralQuery (getHighestRankedTitle entry.2)))
            order ->
     exists items,
       rulerLoop iconExists pluralQuery data q titleOrder order acc =
         Some (acc ++ items) /\
       length items = length order) /\
    (Exists (fun entry => pluralQuery (getHighestRankedTitle entry.2) = None)
            order ->
     rulerLoop iconExists pluralQuery data q titleOrder order acc = Some []).
Proof.
  induction 1 as [|[rulerID periods] order Hne Hrest IH]; intros acc.
  - split.
    + intros _. exists []. now rewrite app_nil_r.
    + intros H. inversion H.
  - cbn [snd] in Hne. destruct periods as [|firstPeriod more]; [congruence|].
    cbn [rulerLoop].
    destruct (pluralQuery (getHighestRankedTitle (firstPeriod :: more)))
      as [plural|] eqn:E.
    + match goal with
      | |- context [rulerLoop _ _ _ _ _ order ?acc'] =>
          destruct (IH acc') as [IHall IHex]
      end.
      split.
      * intros Hall. inversion Hall as [|? ? _ Hall']; subst.
        destruct (IHall Hall') as [items [-> Hlen]].
        eexists (_ :: items). rewrite <- app_assoc. split; [reflexivity|].
        simpl. now rewrite Hlen.
      * intros Hex. inversion Hex as [? ? Hhead | ? ? Htail]; subst.
        -- cbn [snd] in Hhead. congruence.
        -- exact (IHex Htail).
    + split.
      * intros Hall. inversion Hall as [|? ? [? Hsome] _]; subst.
        cbn [snd] in Hsome. congruence.
      * reflexivity.
Qed.

Lemma legacyRulerLoop_outcome data q titleOrder order :
  Forall (fun entry => entry.2 <> []) order ->
  forall acc,
    exists items,
      legacyRulerLoop iconExists data q titleOrder order acc =
        Some (acc ++ items) /\
      length items = length order.
Proof.
  induction 1 as [|[rulerID periods] order Hne Hrest IH]; intros acc.
  - exists []. now rewrite app_nil_r.
  - cbn [snd] in Hne. destruct periods as [|firstPeriod more]; [congruence|].
    cbn [legacyRulerLoop].
    destruct (IH (acc ++ [rulerItem iconExists
                            (default zeroRulerRow (data !! rulerID))
                            (firstPeriod :: more) firstPeriod
                            (rulerSubtitle (default zeroRulerRow (data !! rulerID))
                                           (titleOrder rulerID))
                            (getTitlePlural
                               (RulerRow.TitlePlural
                                  (default zeroRulerRow (data !! rulerID)))
                               (RulerRow.Title
                                  (default zeroRulerRow (data !! rulerID))))
                            q]))
      as [items [-> Hlen]].
    eexists (_ :: items). rewrite <- app_assoc. split; [reflexivity|].
    simpl. now rewrite Hlen.
Qed.

(** The orders that follow the maps as they are listed. *)
Lemma visits_listed rows :
  visits rows (map_to_list (rulerPeriods rows))
    (fun rulerID =>
       map_to_list (groupByTitle (default [] (rulerPeriods rows !! rulerID)))).
Proof.
  split; [reflexivity|]. intros rulerID periods Hin.
  apply elem_of_map_to_list in Hin. now rewrite Hin.
Qed.

(** The loops that look for the earliest start and the latest end. *)
Lemma earliestStart_least periods : forall init,
  let m := fold_left (fun earliestStart p =>
                        if PeriodInfo.StartYear p <? earliestStart
                        then PeriodInfo.StartYear p else earliestStart)
                     periods init in
  m <= init /\
  (forall p, p ∈ periods -> m <= PeriodInfo.StartYear p) /\
  (m = init \/ exists p, p ∈ periods /\ PeriodInfo.StartYear p = m).
Proof.
  induction periods as [|x periods IH]; intros init; cbv zeta.
  - simpl. split; [lia|]. split; [|now left]. intros p Hp. inversion Hp.
  - cbn [fold_left].
    destruct (IH (if PeriodInfo.StartYear x <? init
                  then PeriodInfo.StartYear x else init)) as [Hle [Hall Hex]].
    destruct (Z.ltb_spec (PeriodInfo.StartYear x) init) as [Hlt|Hge].
    + split; [lia|]. split.
      * intros p Hp. apply elem_of_cons in Hp as [->|Hp]; [lia | auto].
      * right. destruct Hex as [Hm | [p [Hp Hm]]].
        -- exists x. split; [left | congruence].
        -- exists p. split; [now right | exact Hm].
    + split; [lia|]. split.
      * intros p Hp. apply elem_of_cons in Hp as [->|Hp]; [lia | auto].
      * destruct Hex as [Hm | [p [Hp Hm]]]; [now left|].
        right. exists p. split; [now right | exact Hm].
Qed.

Lemma latestEnd_greatest periods : forall init,
  let m := fold_left (fun latestEnd p =>
                        if latestEnd <? PeriodInfo.EndYear p
                        then PeriodInfo.EndYear p else latestEnd)
                     periods init in
  init <= m /\
  (forall p, p ∈ periods -> PeriodInfo.EndYear p <= m) /\
  (m = init \/ exists p, p ∈ periods /\ PeriodInfo.EndYear p = m).
Proof.
  induction periods as [|x periods IH]; intros init; cbv zeta.
  - simpl. split; [lia|]. split; [|now left]. intros p Hp. inversion Hp.
  - cbn [fold_left].
    destruct (IH (if init <? PeriodInfo.EndYear x
                  then PeriodInfo.EndYear x else init)) as [Hle [Hall Hex]].
    destruct (Z.ltb_spec init (PeriodInfo.EndYear x)) as [Hlt|Hge].
    + split; [lia|]. split.
      * intros p Hp. apply elem_of_cons in Hp as [->|Hp]; [lia | auto].
      * right. destruct Hex as [Hm | [p [Hp Hm]]].
        -- exists x. split; [left | congruence].
        -- exists p. split; [now right | exact Hm].
    + split; [lia|]. split.
      * intros p Hp. apply elem_of_cons in Hp as [->|Hp]; [lia | auto].
      * destruct Hex as [Hm | [p [Hp Hm]]]; [now left|].
        right. exists p. split; [now right | exact Hm].
Qed.

End RulerResultsFacts.

(** X19. [getRulerResultsWithoutCounters] never stops on [periods[0]]:
    in whatever order its maps are visited it returns a list.  When the
    table of titles answers for the highest-ranked title of every ruler
    found, the list holds one item for each ruler of the rows.  When it
    has no answer for the highest-ranked title of one of them, the list
    is empty: the rulers built before the failure are lost with it. *)
Theorem getRulerResultsWithoutCounters_outcome
    (iconExists : string -> bool) (pluralQuery : string -> option NullString)
    (rows : list RulerRow.t) (originalQuery : string)
    (out : option (list AlfredItem.t)) :
  getRulerResultsWithoutCounters iconExists pluralQuery rows originalQuery out ->
  exists items,
    out = Some items /\
    ((forall rulerID periods,
        rulerPeriods rows !! rulerID = Some periods ->
        is_Some (pluralQuery (getHighestRankedTitle periods))) ->
     length items = length (remove_dups (map RulerRow.RulerID rows))) /\
    ((exists rulerID periods,
        rulerPeriods rows !! rulerID = Some periods /\
        pluralQuery (getHighestRankedTitle periods) = None) ->
     items = []).
Proof.
  intros (order & titleOrder & Hvisits & ->).
  pose proof (visits_nonempty _ _ _ Hvisits) as Hne.
  destruct Hvisits as [Hperm _].
  unfold getRulerResultsWithoutCountersIter.
  destruct (rulerLoop_outcome iconExists pluralQuery (rulerData rows)
              originalQuery titleOrder order Hne []) as [Hall Hex].
  destruct (decide (Forall (fun entry =>
              is_Some (pluralQuery (getHighestRankedTitle entry.2))) order))
    as [Hyes|Hno].
  - destruct (Hall Hyes) as [items [Hrun Hlen]]. exists items.
    split; [exact Hrun|]. split.
    + intros _. rewrite Hlen. now apply rulerPeriods_size.
    + intros (rulerID & periods & Hlook & Hnone). exfalso.
      rewrite Forall_forall in Hyes.
      assert (Hin : (rulerID, periods) ∈ order)
        by (rewrite Hperm; now apply elem_of_map_to_list).
      destruct (Hyes _ Hin) as [plural Hsome]. cbn [snd] in Hsome. congruence.
  - apply not_Forall_Exists in Hno; [|intros entry; apply _].
    assert (Hex' : Exists (fun entry =>
               pluralQuery (getHighestRankedTitle entry.2) = None) order).
    { eapply Exists_impl; [exact Hno|]. intros entry Hn. unfold compose in Hn.
      destruct (pluralQuery _) as [plural|]; [|reflexivity].
      exfalso. apply Hn. exists plural. reflexivity. }
    exists []. split; [exact (Hex Hex')|]. split; [|intros _; reflexivity].
    intros Hevery. exfalso.
    apply Exists_exists in Hex' as [[rulerID periods] [Hin Hnone]].
    rewrite Hperm in Hin. apply elem_of_map_to_list in Hin.
    destruct (Hevery _ _ Hin) as [plural Hsome]. cbn [snd] in Hnone. congruence.
Qed.

Lemma getRulerResultsWithoutCounters_outcome_witness :
  let popesOnly := fun title : string =>
    if String.eqb title "Pope" then Some (some_string "Popes") else None in
  exists items,
    getRulerResultsWithoutCountersIter (fun _ => false) popesOnly sample_table
      "e" (map_to_list (rulerPeriods sample_table))
      (fun rulerID =>
         map_to_list
           (groupByTitle (default [] (rulerPeriods sample_table !! rulerID))))
    = Some items /\
    ((forall rulerID periods,
        rulerPeriods sample_table !! rulerID = Some periods ->
        is_Some (popesOnly (getHighestRankedTitle periods))) ->
     length items =
       length (remove_dups (map RulerRow.RulerID sample_table))) /\
    ((exists rulerID periods,
        rulerPeriods sample_table !! rulerID = Some periods /\
        popesOnly (getHighestRankedTitle periods) = None) ->
     items = []).
Proof.
  intros popesOnly.
  apply (getRulerResultsWithoutCounters_outcome (fun _ => false) popesOnly
           sample_table "e").
  eexists _, _. split; [apply visits_listed | reflexivity].
Defined.

(** X20. The two travel actions of a ruler found by name.  "ctrl" goes
    to the earliest start year among the ruler's periods and "cmd" to the
    latest end year: each is the year of one of the periods, and no
    period starts before the first or ends after the second. *)
Theorem rulerItem_travel_years (iconExists : string -> bool) (r : RulerRow.t)
    (firstPeriod : PeriodInfo.t) (more : list PeriodInfo.t)
    (subtitleString plural originalQuery : string) :
  let periods := firstPeriod :: more in
  let item := rulerItem iconExists r periods firstPeriod subtitleString plural
                        originalQuery in
  exists earliest latest,
    AlfredItem.Mods item !! "ctrl" = Some (travelMod "mySource" (Itoa earliest)) /\
    AlfredItem.Mods item !! "cmd" = Some (travelMod "mySource" (Itoa latest)) /\
    (exists p, p ∈ periods /\ PeriodInfo.StartYear p = earliest) /\
    (forall p, p ∈ periods -> earliest <= PeriodInfo.StartYear p) /\
    (exists p, p ∈ periods /\ PeriodInfo.EndYear p = latest) /\
    (forall p, p ∈ periods -> PeriodInfo.EndYear p <= latest).
Proof.
  intros periods item.
  exists (earliestStartOf firstPeriod periods), (latestEndOf firstPeriod periods).
  split; [|split].
  - unfold item, rulerItem, mods.
    cbn [AlfredItem.Mods list_to_map foldr uncurry fst snd].
    repeat first [ now rewrite lookup_insert_eq
                 | rewrite lookup_insert_ne by discriminate ].
  - unfold item, rulerItem, mods.
    cbn [AlfredItem.Mods list_to_map foldr uncurry fst snd].
    repeat first [ now rewrite lookup_insert_eq
                 | rewrite lookup_insert_ne by discriminate ].
  - unfold earliestStartOf, latestEndOf.
    destruct (earliestStart_least periods (PeriodInfo.StartYear firstPeriod))
      as [_ [Hall Hex]].
    destruct (latestEnd_greatest periods (PeriodInfo.EndYear firstPeriod))
      as [_ [Hall' Hex']].
    split; [|split; [exact Hall|split; [|exact Hall']]].
    + destruct Hex as [-> | Hex]; [|exact Hex].
      exists firstPeriod. split; [left | reflexivity].
    + destruct Hex' as [-> | Hex']; [|exact Hex'].
      exists firstPeriod. split; [left | reflexivity].
Qed.

(** X21. [getRulerResults] asks the table of titles nothing and never
    stops early: in whatever order its maps are visited it returns one
    item for each ruler of the rows, the [i]-th with the counter of [i]
    over their number in front of its subtitle. *)
Theorem getRulerResults_outcome (iconExists : string -> bool)
    (rows : list RulerRow.t) (originalQuery : string)
    (order : list (Z * list PeriodInfo.t))
    (titleOrder : Z -> list (string * list PeriodInfo.t)) :
  visits rows order titleOrder ->
  exists hits batch,
    getRulerResultsIter iconExists rows originalQuery order titleOrder =
      Some batch /\
    length batch = length (remove_dups (map RulerRow.RulerID rows)) /\
    counted hits batch.
Proof.
  intros Hvisits.
  pose proof (visits_nonempty _ _ _ Hvisits) as Hne.
  destruct Hvisits as [Hperm _].
  destruct (legacyRulerLoop_outcome iconExists (rulerData rows) originalQuery
              titleOrder order Hne []) as [hits [Hrun Hlen]].
  exists hits, (addUnifiedCounters hits).
  unfold getRulerResultsIter. rewrite Hrun. split; [reflexivity|]. split.
  - unfold addUnifiedCounters. rewrite length_imap, Hlen.
    now apply rulerPeriods_size.
  - apply addUnifiedCounters_counted.
Qed.

Lemma getRulerResults_outcome_witness :
  exists hits batch,
    getRulerResultsIter (fun _ => false) sample_table "e"
      (map_to_list (rulerPeriods sample_table))
      (fun rulerID =>
         map_to_list
           (groupByTitle (default [] (rulerPeriods sample_table !! rulerID))))
    = Some batch /\
    length batch = length (remove_dups (map RulerRow.RulerID sample_table)) /\
    counted hits batch.
Proof.
  apply (getRulerResults_outcome (fun _ => false) sample_table "e").
  apply visits_listed.
Defined.

(* ===================================================================== *)
(** * Further properties: a year as the whole input *)
(* ===================================================================== *)

Section YearInput.

Lemma year_byte_kept c :
  year_byte c = true -> is_space c = false /\ lower_byte c = c.
Proof.
  unfold year_byte. rewrite !orb_true_iff.
  intros [[H|H]|H].
  - apply Ascii.eqb_eq in H as ->. now split.
  - apply digit_cases in H. simpl in H.
    repeat (destruct H as [<- | H]; [now split|]). destruct H.
  - apply Ascii.eqb_eq in H as ->. now split.
Qed.

Lemma ToLower_year_bytes s : all_bytes year_byte s = true -> ToLower s = s.
Proof.
  induction s as [|c s IH]; [reflexivity|]. simpl.
  intros H. apply andb_true_iff in H as [Hc Hs].
  now rewrite (proj2 (year_byte_kept c Hc)), IH.
Qed.

Lemma all_bytes_rev P s : all_bytes P (String.rev s) = all_bytes P s.
Proof.
  induction s as [|c s IH]; [reflexivity|].
  rewrite rev_String, all_bytes_app, IH. simpl.
  rewrite andb_true_r. apply andb_comm.
Qed.

Lemma trimLeft_year_bytes s : all_bytes year_byte s = true -> trimLeft s = s.
Proof.
  intros H. apply trimLeft_fixed. destruct s as [|c s]; [exact I|].
  simpl in H. apply andb_true_iff in H as [Hc _].
  apply (year_byte_kept c Hc).
Qed.

Lemma TrimSpace_year_bytes s : all_bytes year_byte s = true -> TrimSpace s = s.
Proof.
  intros H. unfold TrimSpace.
  rewrite (trimLeft_year_bytes s H), trimLeft_year_bytes, rev_rev;
    [reflexivity | now rewrite all_bytes_rev].
Qed.

(** A text without white space is one field. *)
Lemma fields_go_one s : forall cur,
  all_bytes (fun c => negb (is_space c)) s = true ->
  fields_go s cur =
  match String.rev_app s cur with
  | EmptyString => []
  | run => [String.rev run]
  end.
Proof.
  induction s as [|c s IH]; intros cur H; [destruct cur; reflexivity|].
  simpl in H. apply andb_true_iff in H as [Hc Hs].
  apply negb_true_iff in Hc. cbn [fields_go String.rev_app].
  rewrite Hc. now apply IH.
Qed.

Lemma Fields_year_bytes s :
  all_bytes year_byte s = true -> s <> "" -> Fields s = [s].
Proof.
  intros H Hne. unfold Fields. rewrite fields_go_one.
  - fold (String.rev s). pose proof (rev_nonempty s Hne) as Hr.
    destruct (String.rev s) as [|c r] eqn:E; [congruence|].
    now rewrite <- E, rev_rev.
  - eapply all_bytes_weaken; [|exact H]. intros c Hc.
    now rewrite (proj1 (year_byte_kept c Hc)).
Qed.

Lemma travelMod_env env year :
  AlfredMod.Variables (travelMod "mySource" year) ⊆ env ->
  Getenv env "mySource" = "".
Proof.
  intros Hsub. unfold Getenv.
  erewrite lookup_weaken; [reflexivity | | exact Hsub].
  unfold travelMod, vars.
  cbn [AlfredMod.Variables list_to_map foldr uncurry fst snd].
  now rewrite lookup_insert_eq.
Qed.

End YearInput.

(** X22. A year-like term as the whole input.  Outside the lineage view,
    an invocation whose argument is one non-empty year-like term runs the
    by-year search on that term with no other term, whatever the restored
    query is. *)
Theorem main_single_year_term (store : Store.t) (config : Config.t)
    (term restoredQuery originalQueryEnv : string) :
  isNumberLike term = true -> term <> "" ->
  Config.MySource config <> "ruler" ->
  main store config (Some term) restoredQuery originalQueryEnv =
  Some (byYear store [] term config term).
Proof.
  intros Hlike Hne Hsrc.
  pose proof (isNumberLike_bytes term Hlike) as Hbytes.
  assert (Hinput : readInput (Some term) restoredQuery = term).
  { unfold readInput.
    rewrite (ToLower_year_bytes term Hbytes), (TrimSpace_year_bytes term Hbytes).
    destruct (String.eqb_spec term ""); [contradiction | reflexivity]. }
  unfold main. rewrite Hinput.
  destruct (String.eqb_spec (Config.MySource config) "ruler"); [contradiction|].
  destruct (String.eqb_spec term ""); [contradiction|].
  unfold search. rewrite (Fields_year_bytes term Hbytes Hne).
  unfold classify, criteriaTerms, searchTermsWN. cbn [List.filter].
  rewrite Hlike. cbn [List.filter]. now rewrite String.eqb_refl.
Qed.

Lemma main_single_year_term_witness :
  main (sample_store 0) (sample_search true) (Some "-50*") "rome" "" =
  Some (byYear (sample_store 0) [] "-50*" (sample_search true) "-50*").
Proof.
  apply (main_single_year_term (sample_store 0) (sample_search true)
           "-50*" "rome" "");
    [reflexivity | discriminate | discriminate].
Defined.

(** X23. Travelling to a year.  Take the "travel" action that a lineage
    entry, an event or a ruler found by name carries for the year [y],
    and an invocation whose environment holds the variables of that
    action and whose argument is the argument of the action.  The
    invocation leaves the lineage view and runs the by-year search on the
    decimal string of [y] alone, and that search selects the year [y] and
    no other. *)
Theorem travel_action_round_trip
    (filepathJoin : string -> string -> string) (userHomeDir : option string)
    (store : Store.t) (env : gmap string string) (config : Config.t) (y : Z) :
  let action := travelMod "mySource" (Itoa y) in
  AlfredMod.Variables action ⊆ env ->
  getConfig filepathJoin userHomeDir env = Some config ->
  run filepathJoin userHomeDir store env (Some (AlfredMod.Arg action)) =
    Some (byYear store [] (Itoa y) config (Itoa y)) /\
  forall year, yearSelected (Itoa y) year = true <-> year = y.
Proof.
  intros action Hsub Hcfg. split; [|intros year; apply yearSelected_Itoa].
  pose proof (travelMod_env env (Itoa y) Hsub) as Hsrc.
  destruct (getConfig_fields _ _ _ _ Hcfg) as (Cs & _).
  rewrite Hsrc in Cs.
  pose proof (Itoa_rendering y) as Hr.
  pose proof (isNumberLike_bytes _ (isNumberLike_rendering _ Hr)) as Hbytes.
  assert (Hinput : forall rq, readInput (Some (Itoa y)) rq = Itoa y).
  { intros rq. unfold readInput.
    rewrite (ToLower_year_bytes _ Hbytes), (TrimSpace_year_bytes _ Hbytes).
    destruct (String.eqb_spec (Itoa y) "") as [He|]; [|reflexivity].
    now apply rendering_nonempty in Hr. }
  unfold run. rewrite Hcfg. unfold main, action.
  cbn [AlfredMod.Arg travelMod]. rewrite Hinput, Cs.
  change (String.eqb "" "ruler") with false. cbv iota.
  destruct (String.eqb_spec (Itoa y) "") as [He|_];
    [now apply rendering_nonempty in Hr|].
  unfold search.
  rewrite (Fields_year_bytes _ Hbytes (rendering_nonempty _ Hr)).
  unfold classify, criteriaTerms, searchTermsWN. cbn [List.filter].
  rewrite (isNumberLike_rendering _ Hr). cbn [List.filter].
  now rewrite String.eqb_refl.
Qed.

Lemma travel_action_round_trip_witness :
  let join := fun a b : string => a ++ "/" ++ b in
  let env := <["alfred_workflow_data" := "/data"]>
               (AlfredMod.Variables (travelMod "mySource" (Itoa (-44)))) in
  run join None (sample_store 0) env (Some "-44") =
    Some (byYear (sample_store 0) [] "-44"
            (Config.mk "" "" "" "" "/data/whoWasWhen.db" true) "-44") /\
  forall year, yearSelected "-44" year = true <-> year = -44.
Proof.
  intros join env.
  apply (travel_action_round_trip join None (sample_store 0) env
           (Config.mk "" "" "" "" "/data/whoWasWhen.db" true) (-44)).
  - apply insert_subseteq. vm_compute. reflexivity.
  - vm_compute. reflexivity.
Defined.
